(** * ISCOL 2025 registration scripts: affiliation normalisation and poster page

    A shallow embedding of [normalize_company_name]
    (analyze_registration.py) and of the HTML escaping done by
    [generate_html] (generate_posters.py), with the properties stated
    about them.

    Python [str] values are modelled as lists of characters.  The
    character tables (case, whitespace, the regular expression class
    [\w]) are Python's tables on the ASCII range; characters above 127
    carry no case, are not whitespace and are not word characters. *)

From Stdlib Require Import List Ascii String Bool Arith Lia.
From stdpp Require Import base option strings gmap sorting pretty.
Import ListNotations.

Local Open Scope list_scope.
Local Open Scope bool_scope.

(** ** Python values and exceptions *)

Definition str := list ascii.

(** A string literal of the source. *)
Definition lit (s : string) : str := list_ascii_of_string s.

(** [BadRef] is no exception of Python: it marks the use of a reference
    to no object, which the store model below has to rule out. *)
Inductive exn := IndexError | ValueError | KeyError | BadRef.

Inductive result (A : Type) :=
| Ok (a : A)
| Raise (e : exn).
Arguments Ok {A} a.
Arguments Raise {A} e.

#[global] Instance result_ret : MRet result := fun A a => Ok a.
#[global] Instance result_bind : MBind result := fun A B f m =>
  match m with
  | Ok a => f a
  | Raise e => Raise e
  end.

(** ** Characters *)

Module Char.

Definition code (c : ascii) : nat := nat_of_ascii c.

Definition in_range (lo hi : nat) (c : ascii) : bool :=
  (lo <=? code c) && (code c <=? hi).

Definition is_upper (c : ascii) : bool := in_range 65 90 c.
Definition is_lower (c : ascii) : bool := in_range 97 122 c.
Definition is_cased (c : ascii) : bool := is_upper c || is_lower c.
Definition is_digit (c : ascii) : bool := in_range 48 57 c.

(** [\w] of the [re] module. *)
Definition is_word (c : ascii) : bool :=
  is_cased c || is_digit c || (code c =? 95).

(** [str.isspace] on one character: TAB..CR, FS..US and the space. *)
Definition is_space (c : ascii) : bool :=
  in_range 9 13 c || in_range 28 32 c.

Definition to_lower (c : ascii) : ascii :=
  if is_upper c then ascii_of_nat (code c + 32) else c.

Definition to_upper (c : ascii) : ascii :=
  if is_lower c then ascii_of_nat (code c - 32) else c.

End Char.

(** ** String primitives of Python used by the scripts *)

Module Py.

Fixpoint str_eqb (a b : str) : bool :=
  match a, b with
  | [], [] => true
  | x :: a', y :: b' => Ascii.eqb x y && str_eqb a' b'
  | _, _ => false
  end.

(** [x in l] for a list of strings [l]. *)
Definition mem (x : str) (l : list str) : bool := existsb (str_eqb x) l.

(** [s.startswith(p)] *)
Fixpoint startswith (p s : str) : bool :=
  match p, s with
  | [], _ => true
  | _ :: _, [] => false
  | x :: p', y :: s' => Ascii.eqb x y && startswith p' s'
  end.

(** [sub in s] for strings: [sub] occurs in [s] at some offset. *)
Fixpoint contains (sub s : str) : bool :=
  startswith sub s ||
  match s with
  | [] => false
  | _ :: t => contains sub t
  end.

(** [s.lower()] *)
Definition lower (s : str) : str := map Char.to_lower s.

Fixpoint lstrip (s : str) : str :=
  match s with
  | [] => []
  | c :: t => if Char.is_space c then lstrip t else s
  end.

Definition rstrip (s : str) : str := rev (lstrip (rev s)).

(** [s.strip()] *)
Definition strip (s : str) : str := rstrip (lstrip s).

(** [s.title()]: a cased character is upper-cased when the character
    before it is not cased, and lower-cased otherwise. *)
Fixpoint title_from (previous_is_cased : bool) (s : str) : str :=
  match s with
  | [] => []
  | c :: t =>
      (if previous_is_cased then Char.to_lower c else Char.to_upper c)
        :: title_from (Char.is_cased c) t
  end.

Definition title (s : str) : str := title_from false s.

(** [s.split(sep)] for a non-empty [sep], scanning left to right;
    [skip] counts the characters of a separator just found that are
    still to be passed over, [cur] is the current piece, reversed. *)
Fixpoint split_from (sep : str) (skip : nat) (cur : str) (s : str) : list str :=
  match s with
  | [] => [rev cur]
  | c :: t =>
      match skip with
      | S k => split_from sep k cur t
      | O =>
          if startswith sep s
          then rev cur :: split_from sep (length sep - 1) [] t
          else split_from sep 0 (c :: cur) t
      end
  end.

(** [s.split(sep)]; an empty separator raises [ValueError]. *)
Definition split (sep s : str) : result (list str) :=
  match sep with
  | [] => Raise ValueError
  | _ :: _ => Ok (split_from sep 0 [] s)
  end.

(** [l[i]]; an index out of range raises [IndexError]. *)
Definition index {A : Type} (l : list A) (i : nat) : result A :=
  match nth_error l i with
  | Some x => Ok x
  | None => Raise IndexError
  end.

(** [s.replace(old, new)] for a non-empty [old]. *)
Fixpoint replace_from (old new : str) (skip : nat) (s : str) : str :=
  match s with
  | [] => []
  | c :: t =>
      match skip with
      | S k => replace_from old new k t
      | O =>
          if startswith old s
          then new ++ replace_from old new (length old - 1) t
          else c :: replace_from old new 0 t
      end
  end.

(** [s.replace(old, new)]; with an empty [old], [new] is put before
    every character and at the end. *)
Definition replace (old new s : str) : str :=
  match old with
  | [] => new ++ flat_map (fun c => c :: new) s
  | _ :: _ => replace_from old new 0 s
  end.

End Py.

(** ** Regular expressions of the [re] module

    Patterns are matched by derivatives; [lang] is the set of strings a
    pattern denotes. *)

Module Re.

Inductive regex :=
| Void
| Eps
| Class (p : ascii -> bool)
| Cat (r1 r2 : regex)
| Alt (r1 r2 : regex)
| Star (r : regex).

(** [r+] *)
Definition Plus (r : regex) : regex := Cat r (Star r).

Fixpoint nullable (r : regex) : bool :=
  match r with
  | Void => false
  | Eps => true
  | Class _ => false
  | Cat r1 r2 => nullable r1 && nullable r2
  | Alt r1 r2 => nullable r1 || nullable r2
  | Star _ => true
  end.

Fixpoint deriv (c : ascii) (r : regex) : regex :=
  match r with
  | Void => Void
  | Eps => Void
  | Class p => if p c then Eps else Void
  | Cat r1 r2 =>
      if nullable r1
      then Alt (Cat (deriv c r1) r2) (deriv c r2)
      else Cat (deriv c r1) r2
  | Alt r1 r2 => Alt (deriv c r1) (deriv c r2)
  | Star r1 => Cat (deriv c r1) (Star r1)
  end.

(** The whole of [s] is matched by [r]. *)
Fixpoint fullmatch (r : regex) (s : str) : bool :=
  match s with
  | [] => nullable r
  | c :: t => fullmatch (deriv c r) t
  end.

(** [$] at the end of a pattern (no MULTILINE flag): the end of the
    string, or just before a newline that ends the string. *)
Definition dollar : regex := Alt Eps (Class (Ascii.eqb "010"%char)).

(** [re.match('^' + r + '$', s)] is not [None]. *)
Definition match_anchored (r : regex) (s : str) : bool :=
  fullmatch (Cat r dollar) s.

Inductive lang : regex -> str -> Prop :=
| lang_eps : lang Eps []
| lang_class p c : p c = true -> lang (Class p) [c]
| lang_cat r1 r2 s1 s2 : lang r1 s1 -> lang r2 s2 -> lang (Cat r1 r2) (s1 ++ s2)
| lang_alt_l r1 r2 s : lang r1 s -> lang (Alt r1 r2) s
| lang_alt_r r1 r2 s : lang r2 s -> lang (Alt r1 r2) s
| lang_star_nil r : lang (Star r) []
| lang_star_cons r s1 s2 : lang r s1 -> lang (Star r) s2 -> lang (Star r) (s1 ++ s2).

End Re.

(** ** analyze_registration.py: [normalize_company_name] *)

(** The class [[\w\.-]] of the email pattern. *)
Definition email_char (c : ascii) : bool :=
  Char.is_word c || Ascii.eqb "."%char c || Ascii.eqb "-"%char c.

(** The pattern [[\w\.-]+@[\w\.-]+\.\w+] (between [^] and [$]). *)
Definition email_pattern : Re.regex :=
  Re.Cat (Re.Plus (Re.Class email_char))
    (Re.Cat (Re.Class (Ascii.eqb "@"%char))
       (Re.Cat (Re.Plus (Re.Class email_char))
          (Re.Cat (Re.Class (Ascii.eqb "."%char))
             (Re.Plus (Re.Class Char.is_word))))).

(** The dict [mappings], in insertion order: canonical name and its
    variations. *)
Definition mappings : list (str * list str) :=
  [ (lit "ai2", [lit "ai2"]);
    (lit "AI21", [lit "ai21"; lit "ai21 labs"]);
    (lit "Amazon", [lit "amazon"]);
    (lit "Ariel University", [lit "ariel"; lit "ariel university"]);
    (lit "Bar Ilan University",
      [lit "bar ilan"; lit "bar-ilan"; lit "biu"; lit "bar ilan university";
       lit "bar-ilan university"; lit "bar illan university"; lit "bar ilan /"]);
    (lit "Ben Gurion University",
      [lit "ben gurion"; lit "ben-gurion"; lit "bgu"; lit "ben gurion university";
       lit "ben-gurion university"; lit "ben gurion university of the negev"]);
    (lit "Bold", [lit "bold"; lit "bold.ai"; lit "bold ai"]);
    (lit "Dicta", [lit "dicta"; lit "dicta: israel center for text analysis"]);
    (lit "GE Healthcare", [lit "ge healthcare"; lit "ge health"]);
    (lit "Genesys", [lit "genesys"]);
    (lit "Gong", [lit "gong"; lit "gong io"; lit "gong.io"]);
    (lit "Google", [lit "google"; lit "google research"]);
    (lit "Hebrew University",
      [lit "hebrew university"; lit "huji"; lit "the hebrew university";
       lit "the hebrew university of jerusalem"; lit "hebrew university of jerusalem"]);
    (lit "IBM",
      [lit "ibm"; lit "ibm r"; lit "ibm research"; lit "ibm resaerch";
       lit "ibm research - isrl"]);
    (lit "IDF", [lit "idf"]);
    (lit "Intel", [lit "intel"]);
    (lit "Microsoft", [lit "microsoft"]);
    (lit "Nexxen", [lit "nexxen"]);
    (lit "OriginAI", [lit "originai"]);
    (lit "Reichman University",
      [lit "reichman"; lit "reichman university"; lit "reichmann university"]);
    (lit "Rival Security", [lit "rival security"; lit "rival"]);
    (lit "Salesforce", [lit "salesforce"; lit "salesforce.com"]);
    (lit "Second Nature", [lit "second nature"; lit "second nature ai"]);
    (lit "Sheba AI Center",
      [lit "sheba"; lit "sheba ai center"; lit "sheba medical center";
       lit "arc sheba ai center"]);
    (lit "Technion",
      [lit "technion"; lit "technion - israel institute of technology";
       lit "technion- israel institute for technology"]);
    (lit "Tel Aviv University",
      [lit "tau"; lit "tel aviv university"; lit "tel aviv university "]);
    (lit "Walmart", [lit "walmart"; lit "walmart (aspectiva)"; lit "walmart aspectiva"]);
    (lit "Weizmann Institute",
      [lit "weizmann"; lit "weizmann institute"; lit "weizmann institute of science"]);
    (lit "Wix", [lit "wix"; lit "wix.com"]) ].

Definition not_specified : str := lit "Not specified".

(** [not l] for a list or a string [l]. *)
Definition is_empty {A : Type} (l : list A) : bool :=
  match l with
  | [] => true
  | _ :: _ => false
  end.

(** The separators tried, in order. *)
Definition separators : list str := [lit ","; lit "/"; lit " and "; lit "&"].

(** [if variation in part or part in variation] *)
Definition variation_matches (part variation : str) : bool :=
  Py.contains variation part || Py.contains part variation.

(** The loop [for variation in variations] for one canonical name: the
    list [normalized] after it, and the flag [matched]. *)
Fixpoint scan_variations (part canonical : str) (variations : list str)
    (normalized : list str) : list str * bool :=
  match variations with
  | [] => (normalized, false)
  | variation :: rest =>
      if variation_matches part variation
      then ((if Py.mem canonical normalized
             then normalized
             else normalized ++ [canonical]), true)
      else scan_variations part canonical rest normalized
  end.

(** The loop [for canonical, variations in mappings.items()], left at
    the first canonical name that sets [matched]. *)
Fixpoint scan_mappings (part : str) (items : list (str * list str))
    (normalized : list str) : list str * bool :=
  match items with
  | [] => (normalized, false)
  | (canonical, variations) :: rest =>
      let '(normalized', matched) :=
        scan_variations part canonical variations normalized in
      if matched then (normalized', true)
      else scan_mappings part rest normalized'
  end.

(** The loop [for part in potential_parts]. *)
Fixpoint normalize_parts (potential_parts : list str) (normalized : list str)
    : list str :=
  match potential_parts with
  | [] => normalized
  | part :: rest =>
      let part := Py.strip part in
      if is_empty part then normalize_parts rest normalized
      else
        let '(normalized, matched) := scan_mappings part mappings normalized in
        let normalized :=
          if matched then normalized else normalized ++ [Py.title part] in
        normalize_parts rest normalized
  end.

(** The loop [for sep in [',', '/', ' and ', '&']]: the value of
    [potential_parts] after it ([[]] when no separator occurs). *)
Fixpoint split_on_first (seps : list str) (company : str) : result (list str) :=
  match seps with
  | [] => Ok []
  | sep :: rest =>
      if Py.contains sep company
      then parts ← Py.split sep company; mret (map Py.strip parts)
      else split_on_first rest company
  end.

(** [potential_parts] when the loops over it start: the stripped pieces
    at the first separator that occurs, or [company] alone. *)
Definition potential_parts_of (company : str) : result (list str) :=
  potential_parts ← split_on_first separators company;
  mret (if is_empty potential_parts then [company] else potential_parts).

(** [normalized if normalized else ['Not specified']] *)
Definition or_not_specified (normalized : list str) : list str :=
  if is_empty normalized then [not_specified] else normalized.

(** The value of [company] after the email check. *)
Definition email_domain (company : str) : result str :=
  if Py.contains (lit "@") company && Re.match_anchored email_pattern company
  then parts ← Py.split (lit "@") company; Py.index parts 1
  else Ok company.

(** [normalize_company_name(company)]; [None] is a missing value, for
    which [pd.isna] holds. *)
Definition normalize_company_name (company : option str) : result (list str) :=
  match company with
  | None => Ok [not_specified]
  | Some company =>
      if Py.str_eqb company (lit "-") then Ok [not_specified]
      else
        let company := Py.lower (Py.strip company) in
        company ← email_domain company;
        potential_parts ← potential_parts_of company;
        let normalized := normalize_parts potential_parts [] in
        mret (or_not_specified normalized)
  end.

(** *** The same function over a store of list objects

    [normalized] is a list object that the loops extend in place with
    [append]; the result of a call is a reference to a list object.
    The store maps addresses to the list objects alive.  Strings are
    immutable, and the dict [mappings] and the list [potential_parts]
    are built inside the call and only read, so they stay values. *)

Module Heap.

Abbreviation store := (gmap nat (list str)).

Definition M (A : Type) : Type := store -> result (A * store).

#[global] Instance M_ret : MRet M := fun A a σ => Ok (a, σ).
#[global] Instance M_bind : MBind M := fun A B f m σ =>
  match m σ with
  | Ok (a, σ') => f a σ'
  | Raise e => Raise e
  end.

Definition lift {A : Type} (r : result A) : M A := fun σ =>
  match r with
  | Ok a => Ok (a, σ)
  | Raise e => Raise e
  end.

(** A new list object with the given items. *)
Definition new_list (items : list str) : M nat := fun σ =>
  let l := fresh (dom σ) in Ok (l, <[l := items]> σ).

Definition read_list (l : nat) : M (list str) := fun σ =>
  match σ !! l with
  | Some items => Ok (items, σ)
  | None => Raise BadRef
  end.

(** [l.append(x)] *)
Definition append (l : nat) (x : str) : M unit := fun σ =>
  match σ !! l with
  | Some items => Ok (tt, <[l := items ++ [x]]> σ)
  | None => Raise BadRef
  end.

Fixpoint scan_variations (part canonical : str) (variations : list str)
    (normalized : nat) : M bool :=
  match variations with
  | [] => mret false
  | variation :: rest =>
      if variation_matches part variation
      then
        items ← read_list normalized;
        _ ← (if Py.mem canonical items then (mret tt : M unit)
             else append normalized canonical);
        (mret true : M bool)
      else scan_variations part canonical rest normalized
  end.

Fixpoint scan_mappings (part : str) (items : list (str * list str))
    (normalized : nat) : M bool :=
  match items with
  | [] => mret false
  | (canonical, variations) :: rest =>
      scan_variations part canonical variations normalized ≫= λ matched : bool,
      if matched then (mret true : M bool) else scan_mappings part rest normalized
  end.

Fixpoint normalize_parts (potential_parts : list str) (normalized : nat)
    : M unit :=
  match potential_parts with
  | [] => mret tt
  | part :: rest =>
      let part := Py.strip part in
      if is_empty part then normalize_parts rest normalized
      else
        scan_mappings part mappings normalized ≫= λ matched : bool,
        _ ← (if matched then (mret tt : M unit)
             else append normalized (Py.title part));
        normalize_parts rest normalized
  end.

(** A call of [normalize_company_name]: the reference it returns. *)
Definition normalize_company_name (company : option str) : M nat :=
  match company with
  | None => new_list [not_specified]
  | Some company =>
      if Py.str_eqb company (lit "-") then new_list [not_specified]
      else
        let company := Py.lower (Py.strip company) in
        company ← lift (email_domain company);
        potential_parts ← lift (potential_parts_of company);
        normalized ← new_list [];
        _ ← normalize_parts potential_parts normalized;
        items ← read_list normalized;
        if is_empty items then new_list [not_specified] else (mret normalized : M nat)
  end.

End Heap.

(** ** generate_posters.py: [generate_html] *)

Module Posters.

Record poster := { title : str; authors : str }.

(** [s.replace('&', '&amp;').replace('<', '&lt;').replace('>', '&gt;')] *)
Definition escape (s : str) : str :=
  Py.replace (lit ">") (lit "&gt;")
    (Py.replace (lit "<") (lit "&lt;")
       (Py.replace (lit "&") (lit "&amp;") s)).

Definition nl : str := ["010"%char].
Definition sp (n : nat) : str := repeat " "%char n.
(** [s] between double quotes. *)
Definition quoted (s : str) : str := ["034"%char] ++ s ++ ["034"%char].

(** [str(n)] for an [int]. *)
Definition str_of_int (n : Z) : str :=
  lit (pretty n).

Definition session_times : gmap Z str :=
  list_to_map [ (1%Z, lit "10:15 - 11:15");
                (2%Z, lit "13:45 - 14:45");
                (3%Z, lit "16:40 - 17:40") ].

(** [d[k]]; a key that is absent raises [KeyError]. *)
Definition getitem {A : Type} (d : gmap Z A) (k : Z) : result A :=
  match d !! k with
  | Some v => Ok v
  | None => Raise KeyError
  end.

(** The text that opens a session column. *)
Definition session_open (session_id : Z) (time : str) : str :=
  nl ++
  sp 12 ++ lit "<div class=" ++ quoted (lit "session-column")
        ++ lit " data-session-content=" ++ quoted (str_of_int session_id)
        ++ lit ">" ++ nl ++
  sp 14 ++ lit "<div class=" ++ quoted (lit "session-header") ++ lit ">" ++ nl ++
  sp 16 ++ lit "<h2 id=" ++ quoted (lit "session-" ++ str_of_int session_id)
        ++ lit ">Session " ++ str_of_int session_id
        ++ lit " <span class=" ++ quoted (lit "session-time") ++ lit ">("
        ++ time ++ lit ")</span></h2>" ++ nl ++
  sp 14 ++ lit "</div>" ++ nl ++
  sp 14 ++ lit "<div class=" ++ quoted (lit "posters-list") ++ lit ">" ++ nl.

Definition session_close : str :=
  sp 14 ++ lit "</div>" ++ nl ++
  sp 12 ++ lit "</div>" ++ nl.

(** The text of one poster, given the two strings put into it. *)
Definition poster_item (title authors : str) : str :=
  sp 12 ++ lit "<div class=" ++ quoted (lit "poster-item") ++ lit ">" ++ nl ++
  sp 14 ++ lit "<div class=" ++ quoted (lit "poster-title") ++ lit ">"
        ++ title ++ lit "</div>" ++ nl ++
  sp 14 ++ lit "<div class=" ++ quoted (lit "poster-authors") ++ lit ">"
        ++ authors ++ lit "</div>" ++ nl ++
  sp 12 ++ lit "</div>" ++ nl.

(** The loop [for poster in posters]. *)
Fixpoint add_posters (posters : list poster) (html : str) : str :=
  match posters with
  | [] => html
  | p :: rest =>
      let title := escape (title p) in
      let authors := escape (authors p) in
      add_posters rest (html ++ poster_item title authors)
  end.

(** [sorted(d.keys())] *)
Definition sorted_keys {A : Type} (d : gmap Z A) : list Z :=
  merge_sort Z.le (map fst (map_to_list d)).

Section Page.

(** The literal text before the session columns and the literal text
    after them; no statement below depends on what they are. *)
Variables page_head page_tail : str.

(** The loop [for session_id in sorted(posters_by_session.keys())]. *)
Fixpoint add_sessions (posters_by_session : gmap Z (list poster))
    (session_ids : list Z) (html : str) : result str :=
  match session_ids with
  | [] => Ok html
  | session_id :: rest =>
      posters ← getitem posters_by_session session_id;
      time ← getitem session_times session_id;
      let html := html ++ session_open session_id time in
      let html := add_posters posters html in
      let html := html ++ session_close in
      add_sessions posters_by_session rest html
  end.

Definition generate_html (posters_by_session : gmap Z (list poster))
    : result str :=
  html ← add_sessions posters_by_session (sorted_keys posters_by_session)
           page_head;
  mret (html ++ page_tail).

End Page.

End Posters.

(** [f] on each item in turn, up to the first exception. *)
Fixpoint map_result {A B : Type} (f : A -> result B) (l : list A)
    : result (list B) :=
  match l with
  | [] => Ok []
  | x :: rest =>
      value ← f x; values ← map_result f rest; mret (value :: values)
  end.

(** ** analyze_registration.py: [clean_email] and the steps of
    [analyze_registration_data] on the cleaned columns *)

Module Registration.

(** [clean_email(email)]; [None] is a missing value on the way in and
    the value [None] on the way out. *)
Definition clean_email (email : option str) : option str :=
  match email with
  | None => None
  | Some email =>
      let email := Py.lower (Py.strip email) in
      if Re.match_anchored email_pattern email then Some email else None
  end.

(** One row of the registration table, with the columns read here. *)
Record registration := {
  email_address : option str;
  affiliation : option str;
  role : option str }.

(** [df['Email Address'] = df['Email Address'].apply(clean_email)] *)
Definition clean_emails (df : list registration) : list registration :=
  map (fun r => {| email_address := clean_email (email_address r);
                   affiliation := affiliation r;
                   role := role r |}) df.

(** Equality of two cells of a column; two missing values are equal. *)
Definition cell_eqb (a b : option str) : bool :=
  match a, b with
  | None, None => true
  | Some x, Some y => Py.str_eqb x y
  | _, _ => false
  end.

(** [df.drop_duplicates(subset=['Email Address'], keep='first')]: a row
    is dropped when a row before it has the same cell in the column;
    [seen] holds the cells met so far. *)
Fixpoint drop_duplicates_from (seen : list (option str))
    (df : list registration) : list registration :=
  match df with
  | [] => []
  | r :: rest =>
      if existsb (cell_eqb (email_address r)) seen
      then drop_duplicates_from seen rest
      else r :: drop_duplicates_from (email_address r :: seen) rest
  end.

Definition drop_duplicates (df : list registration) : list registration :=
  drop_duplicates_from [] df.

(** The rows left after the email column is cleaned and duplicates are
    dropped, and the number [duplicates_removed]. *)
Definition unique_registrations (df : list registration)
    : list registration * Z :=
  let initial_count := Z.of_nat (length df) in
  let df := drop_duplicates (clean_emails df) in
  (df, (initial_count - Z.of_nat (length df))%Z).

(** [column.fillna(value)] on one cell. *)
Definition fillna (value : str) (cell : option str) : str :=
  default value cell.

(** [df['Affiliation (University/Company)'].apply(normalize_company_name)] *)
Definition affiliation_normalized (column : list (option str))
    : result (list (list str)) :=
  map_result normalize_company_name column.

(** [lambda x: len(x) > 0 and not (len(x) == 1 and x[0] == 'Not specified')] *)
Definition has_affiliation (x : list str) : result bool :=
  if 0 <? length x
  then
    if length x =? 1
    then first ← Py.index x 0; mret (negb (Py.str_eqb first not_specified))
    else Ok true
  else Ok false.

(** The lists [academic_roles] and [industry_roles]. *)
Definition academic_roles : list str :=
  [lit "Graduate student"; lit "Student (BA/BSc)"; lit "Faculty member";
   lit "PhD student"; lit "PhD Student"; lit "Post-doc"; lit "MSc student";
   lit "M.Sc. Student"; lit "MSc Graduate"; lit "Msc student";
   lit "MSc Student in CS"; lit "M.S.c Student"; lit "MS Student"].

Definition industry_roles : list str :=
  [lit "Industry researcher"; lit "Industry engineer"; lit "Industry member";
   lit "Data Executive"; lit "Principal Engineering Lead"; lit "Product Manager";
   lit "Industry NLP Product Manager"].

(** [df[df[column].isin(values)].shape[0]] for a column of strings. *)
Definition count_isin (values : list str) (column : list str) : Z :=
  Z.of_nat (length (List.filter (fun v => Py.mem v values) column)).

(** [academic_count], [industry_count] and [other_count] for the column
    [Role] of the attending rows. *)
Definition role_counts (roles : list str) : Z * Z * Z :=
  let academic_count := count_isin academic_roles roles in
  let industry_count := count_isin industry_roles roles in
  let other_count :=
    (Z.of_nat (length roles) - academic_count - industry_count)%Z in
  (academic_count, industry_count, other_count).

(** The lists [universities] and [companies]. *)
Definition universities : list str :=
  [lit "Bar Ilan University"; lit "Ben Gurion University"; lit "Hebrew University";
   lit "Technion"; lit "Tel Aviv University"; lit "Weizmann Institute";
   lit "Ariel University"; lit "Reichman University"; lit "University of Haifa";
   lit "Haifa University"].

Definition companies : list str :=
  [lit "Google"; lit "Microsoft"; lit "IBM"; lit "Amazon"; lit "AI21"; lit "ai2";
   lit "Intel"; lit "Salesforce"; lit "Walmart"; lit "Gong"; lit "Wix"; lit "Bold";
   lit "OriginAI"; lit "Genesys"; lit "Second Nature"; lit "GE Healthcare";
   lit "Arm"; lit "Nexxen"].

(** [df.explode('Affiliation_Normalized')] on the column: one row for
    each name of a list, and one row with a missing value for an empty
    list. *)
Definition explode (column : list (list str)) : list (option str) :=
  flat_map (fun names => if is_empty names then [None] else map Some names)
           column.

(** [isin(values)] on one cell; a missing value is in no list. *)
Definition cell_isin (values : list str) (cell : option str) : bool :=
  match cell with
  | Some v => Py.mem v values
  | None => false
  end.

(** [university_count], [company_count] and [other_org] for the exploded
    column. *)
Definition organization_counts (exploded : list (option str)) : Z * Z * Z :=
  let university_count :=
    Z.of_nat (length (List.filter (cell_isin universities) exploded)) in
  let company_count :=
    Z.of_nat (length (List.filter (cell_isin companies) exploded)) in
  let other_org :=
    (Z.of_nat (length exploded) - university_count - company_count)%Z in
  (university_count, company_count, other_org).

End Registration.

(** ** generate_posters.py: [load_posters] and [main]

    A row of [csv.DictReader] is a dict from the column names of the
    header to the fields of the line; where the line is shorter than
    the header the field is [None].  [load_posters] stores the fields as
    they are, so a poster may hold [None], on which [generate_html]
    raises [AttributeError]. *)

Module Loader.

(** What a call ends with when it raises: an exception of the kinds
    above, [TypeError] or [AttributeError]. *)
Inductive error := Exn (e : exn) | TypeError | AttributeError.

Inductive outcome (A : Type) :=
| Done (a : A)
| Fail (e : error).
Arguments Done {A} a.
Arguments Fail {A} e.

#[global] Instance outcome_ret : MRet outcome := fun A a => Done a.
#[global] Instance outcome_bind : MBind outcome := fun A B f m =>
  match m with
  | Done a => f a
  | Fail e => Fail e
  end.

Definition lift {A : Type} (r : result A) : outcome A :=
  match r with
  | Ok a => Done a
  | Raise e => Fail (Exn e)
  end.

(** The dict [{'title': ..., 'authors': ...}] made from a row. *)
Record loaded := { title : option str; authors : option str }.

(** [row[column]]; a column that the header does not have raises
    [KeyError]. *)
Definition row_get (row : gmap string (option str)) (column : string)
    : outcome (option str) :=
  match row !! column with
  | Some field => Done field
  | None => Fail (Exn KeyError)
  end.

(** [{1: [], 2: [], 3: []}] *)
Definition empty_sessions : gmap Z (list loaded) :=
  list_to_map [ (1%Z, []); (2%Z, []); (3%Z, []) ].

Section Int.

(** The builtin [int] on a field of a row. *)
Variable int : option str -> outcome Z.

(** The loop [for row in reader]. *)
Fixpoint add_rows (rows : list (gmap string (option str)))
    (posters_by_session : gmap Z (list loaded))
    : outcome (gmap Z (list loaded)) :=
  match rows with
  | [] => Done posters_by_session
  | row :: rest =>
      field ← row_get row "Poster Session ID";
      session_id ← int field;
      posters ← lift (Posters.getitem posters_by_session session_id);
      title ← row_get row "title";
      authors ← row_get row "Authors";
      add_rows rest
        (<[session_id := posters ++ [ {| title := title; authors := authors |} ]]>
           posters_by_session)
  end.

(** [load_posters], from the rows the reader gives. *)
Definition load_posters (rows : list (gmap string (option str)))
    : outcome (gmap Z (list loaded)) :=
  add_rows rows empty_sessions.

End Int.

(** [field.replace('&', '&amp;').replace('<', '&lt;').replace('>', '&gt;')];
    [None] has no [replace]. *)
Definition escape_field (field : option str) : outcome str :=
  match field with
  | Some s => Done (Posters.escape s)
  | None => Fail AttributeError
  end.

(** The loop [for poster in posters] of [generate_html] on the dicts
    that [load_posters] makes. *)
Fixpoint add_posters (posters : list loaded) (html : str) : outcome str :=
  match posters with
  | [] => Done html
  | p :: rest =>
      title ← escape_field (title p);
      authors ← escape_field (authors p);
      add_posters rest (html ++ Posters.poster_item title authors)
  end.

(** The loop [for session_id in sorted(posters_by_session.keys())]. *)
Fixpoint add_sessions (posters_by_session : gmap Z (list loaded))
    (session_ids : list Z) (html : str) : outcome str :=
  match session_ids with
  | [] => Done html
  | session_id :: rest =>
      posters ← lift (Posters.getitem posters_by_session session_id);
      time ← lift (Posters.getitem Posters.session_times session_id);
      html ← add_posters posters (html ++ Posters.session_open session_id time);
      add_sessions posters_by_session rest (html ++ Posters.session_close)
  end.

(** [generate_html] on the dict that [load_posters] returns. *)
Definition generate_html (page_head page_tail : str)
    (posters_by_session : gmap Z (list loaded)) : outcome str :=
  html ← add_sessions posters_by_session
           (Posters.sorted_keys posters_by_session) page_head;
  mret (html ++ page_tail).

(** [main], from the rows to the text written to [posters.html]. *)
Definition main (int : option str -> outcome Z) (page_head page_tail : str)
    (rows : list (gmap string (option str))) : outcome str :=
  posters_by_session ← load_posters int rows;
  generate_html page_head page_tail posters_by_session.

(** *** [int] on ASCII text *)

Definition digit_value (c : ascii) : Z := Z.of_nat (Char.code c - 48).

(** The whitespace [int] passes over at both ends: TAB..CR and the
    space. *)
Definition is_int_space (c : ascii) : bool :=
  Char.in_range 9 13 c || (Char.code c =? 32).

Fixpoint skip_space (s : str) : str :=
  match s with
  | [] => []
  | c :: t => if is_int_space c then skip_space t else s
  end.

Definition trim (s : str) : str := rev (skip_space (rev (skip_space s))).

(** The digits of [int(s)]: decimal digits, with single underscores
    between digits only, and no more than 4300 digits; [count] is the
    number of digits read and [after_digit] tells that the character
    before is a digit. *)
Fixpoint int_digits (acc : Z) (count : nat) (after_digit : bool) (s : str)
    : outcome Z :=
  match s with
  | [] =>
      if after_digit && (count <=? 4300) then Done acc
      else Fail (Exn ValueError)
  | c :: t =>
      if Char.is_digit c
      then int_digits (10 * acc + digit_value c)%Z (S count) true t
      else if Ascii.eqb c "_"%char && after_digit
           then int_digits acc count false t
           else Fail (Exn ValueError)
  end.

(** [int(field)] for ASCII text: [None] raises [TypeError]; whitespace
    around the number is passed over, a sign may come first; anything
    else raises [ValueError]. *)
Definition ascii_int (field : option str) : outcome Z :=
  match field with
  | None => Fail TypeError
  | Some s =>
      match trim s with
      | c :: t =>
          if Ascii.eqb c "-"%char
          then n ← int_digits 0 0 false t; mret (- n)%Z
          else if Ascii.eqb c "+"%char then int_digits 0 0 false t
          else int_digits 0 0 false (c :: t)
      | [] => Fail (Exn ValueError)
      end
  end.

End Loader.

(** ** Statements of the specification, in its own words *)

(** [s.isascii()]: every character of [s] is below 128.  On such text
    [strip], [lower], [title] and the class [\w] are the ASCII ones of
    the modules [Char] and [Py]. *)
Definition isascii (s : str) : bool :=
  forallb (fun c => Char.code c <? 128) s.

(** A cell of the table that is missing or holds ASCII text. *)
Definition ascii_input (cell : option str) : bool :=
  match cell with
  | Some raw => isascii raw
  | None => true
  end.

(** [sub] occurs in [s]. *)
Definition occurs_in (sub s : str) : Prop :=
  exists pre post, s = pre ++ sub ++ post.

(** [sep.join(pieces)] *)
Fixpoint join (sep : str) (pieces : list str) : str :=
  match pieces with
  | [] => []
  | [p] => p
  | p :: rest => p ++ sep ++ join sep rest
  end.

(** The first canonical name, in the order of the table, one of whose
    variations matches [part]. *)
Definition first_canonical (part : str) (items : list (str * list str))
    : option str :=
  fst <$> find (fun item => existsb (variation_matches part) (snd item)) items.

(** [part] matches [variation]: one of the two occurs in the other. *)
Definition matches_variation (part variation : str) : Prop :=
  occurs_in variation part \/ occurs_in part variation.

(** [part] matches a canonical name with the given variations. *)
Definition matches_canonical (part : str) (variations : list str) : Prop :=
  Exists (matches_variation part) variations.

(** [canonical] put at the end of [normalized] unless it is there. *)
Definition add_once (canonical : str) (normalized : list str) : list str :=
  if Py.mem canonical normalized then normalized else normalized ++ [canonical].

(** The HTML entity for a character, or the character itself. *)
Definition entity (c : ascii) : str :=
  if Ascii.eqb c "&"%char then lit "&amp;"
  else if Ascii.eqb c "<"%char then lit "&lt;"
  else if Ascii.eqb c ">"%char then lit "&gt;"
  else [c].

(** The two elements of a poster as they stand in the page: the given
    title text in the element of class [poster-title], a newline and
    the indentation, the given authors text in the element of class
    [poster-authors]. *)
Definition poster_markup (title_text authors_text : str) : str :=
  lit "<div class=" ++ ["034"%char] ++ lit "poster-title" ++ ["034"%char]
    ++ lit ">" ++ title_text ++ lit "</div>"
    ++ ["010"%char] ++ repeat " "%char 14
    ++ lit "<div class=" ++ ["034"%char] ++ lit "poster-authors" ++ ["034"%char]
    ++ lit ">" ++ authors_text ++ lit "</div>".

(** The fixed text before and after the two elements of a poster. *)
Definition item_before : str :=
  repeat " "%char 12 ++ lit "<div class=" ++ ["034"%char] ++ lit "poster-item"
    ++ ["034"%char] ++ lit ">" ++ ["010"%char] ++ repeat " "%char 14.
Definition item_after : str :=
  ["010"%char] ++ repeat " "%char 12 ++ lit "</div>" ++ ["010"%char].

(** [poster_markup] followed by [rest], written as one chain. *)
Definition poster_markup_then (title_text authors_text rest : str) : str :=
  lit "<div class=" ++ ["034"%char] ++ lit "poster-title" ++ ["034"%char]
    ++ lit ">" ++ title_text ++ lit "</div>"
    ++ ["010"%char] ++ repeat " "%char 14
    ++ lit "<div class=" ++ ["034"%char] ++ lit "poster-authors" ++ ["034"%char]
    ++ lit ">" ++ authors_text ++ lit "</div>" ++ rest.

(** The text of one poster with every character of its title and of
    its authors replaced by its entity. *)
Definition poster_text (p : Posters.poster) : str :=
  Posters.poster_item (flat_map entity (Posters.title p))
                      (flat_map entity (Posters.authors p)).

(** The text of one session column. *)
Definition session_text (posters_by_session : gmap Z (list Posters.poster))
    (session_id : Z) : str :=
  Posters.session_open session_id
      (default [] (Posters.session_times !! session_id))
    ++ flat_map poster_text (default [] (posters_by_session !! session_id))
    ++ Posters.session_close.

(** Every string of [l] has a character. *)
Definition all_nonempty (l : list str) : Prop := Forall (fun s : str => s <> []) l.

(** No separator starts inside the current piece. *)
Definition piece_clear (sep cur s : str) : Prop :=
  forall u v, rev cur = u ++ v -> v <> [] -> Py.startswith sep (v ++ s) = false.

(** A page with three sessions, the second one without posters. *)
Definition demo_posters : gmap Z (list Posters.poster) :=
  list_to_map
    [ (1%Z, [ {| Posters.title := lit "Parsing <unk> & friends";
                 Posters.authors := lit "A. Cohen & B. Levi" |} ]);
      (2%Z, []);
      (3%Z, [ {| Posters.title := lit "a > b";
                 Posters.authors := lit "C. Mizrahi" |} ]) ].

(** [f] on each item in turn, up to the first exception. *)
Fixpoint map_outcome {A B : Type} (f : A -> Loader.outcome B) (l : list A)
    : Loader.outcome (list B) :=
  match l with
  | [] => Loader.Done []
  | x :: rest =>
      value ← f x; values ← map_outcome f rest; mret (value :: values)
  end.

(** What the loop of [load_posters] does with one row: the session and
    the poster read from it, or the first exception. *)
Definition read_row (int : option str -> Loader.outcome Z)
    (row : gmap string (option str)) : Loader.outcome (Z * Loader.loaded) :=
  field ← Loader.row_get row "Poster Session ID";
  session_id ← int field;
  if (1 <=? session_id)%Z && (session_id <=? 3)%Z
  then
    title ← Loader.row_get row "title";
    authors ← Loader.row_get row "Authors";
    mret (session_id, {| Loader.title := title; Loader.authors := authors |})
  else Loader.Fail (Loader.Exn KeyError).

(** The items read for one session, in the order of the rows. *)
Definition posters_of {A : Type} (session_id : Z) (parsed : list (Z * A))
    : list A :=
  map snd (List.filter (fun kp => (fst kp =? session_id)%Z) parsed).

(** The dict with the three sessions. *)
Definition three_sessions {A : Type} (l1 l2 l3 : A) : gmap Z A :=
  <[1%Z := l1]> (<[2%Z := l2]> (<[3%Z := l3]> ∅)).

(** A loaded poster whose two fields are strings, as a poster. *)
Definition unwrap (p : Loader.loaded) : option Posters.poster :=
  match Loader.title p, Loader.authors p with
  | Some title, Some authors =>
      Some {| Posters.title := title; Posters.authors := authors |}
  | _, _ => None
  end.

(** The loaded posters of a list as posters, when none holds [None]. *)
Fixpoint unwrap_all (l : list Loader.loaded) : option (list Posters.poster) :=
  match l with
  | [] => Some []
  | p :: rest =>
      match unwrap p, unwrap_all rest with
      | Some q, Some qs => Some (q :: qs)
      | _, _ => None
      end
  end.

(** Three rows of a poster file, for sessions 2, 1 and 2; the last line
    is short and has no authors. *)
Definition demo_rows : list (gmap string (option str)) :=
  [ list_to_map [("Poster Session ID"%string, Some (lit "2"));
                 ("title"%string, Some (lit "Tokenizers & <unk>"));
                 ("Authors"%string, Some (lit "N. Peretz"))];
    list_to_map [("Poster Session ID"%string, Some (lit " 1 "));
                 ("title"%string, Some (lit "Morphology"));
                 ("Authors"%string, Some (lit "T. Azoulay"))];
    list_to_map [("Poster Session ID"%string, Some (lit "2"));
                 ("title"%string, Some (lit "Alignment"));
                 ("Authors"%string, None)] ].

(** What [load_posters] makes of these rows. *)
Definition demo_sessions : gmap Z (list Loader.loaded) :=
  three_sessions
    [ {| Loader.title := Some (lit "Morphology");
         Loader.authors := Some (lit "T. Azoulay") |} ]
    [ {| Loader.title := Some (lit "Tokenizers & <unk>");
         Loader.authors := Some (lit "N. Peretz") |};
      {| Loader.title := Some (lit "Alignment");
         Loader.authors := None |} ]
    [].


(** The canonical names of the table. *)
Definition canonical_names : list str := map fst mappings.

(** [name] is the title case of a fragment that is not empty, is
    lowercased and trimmed, and matches no canonical name. *)
Definition unmatched_title (name : str) : Prop :=
  exists part,
    part <> [] /\ Py.lower part = part /\ Py.strip part = part
    /\ first_canonical part mappings = None
    /\ name = Py.title part.

(** Where a name of a result comes from. *)
Definition classified (name : str) : Prop :=
  In name canonical_names \/ unmatched_title name.

(** How many times [name] is in [l]. *)
Definition count (name : str) (l : list str) : nat :=
  length (List.filter (Py.str_eqb name) l).

(** Every character of [s] is whitespace. *)
Definition all_space (s : str) : Prop := forallb Char.is_space s = true.

(** * Properties *)

(** A statement about one character, settled on each of the 256. *)
Ltac each_char c :=
  destruct c as [[] [] [] [] [] [] [] []];
  vm_compute; try reflexivity; try discriminate.


(** ** Strings *)

Lemma str_eqb_eq (a b : str) : Py.str_eqb a b = true <-> a = b.
Proof.
  revert b; induction a as [|x a IH]; intros [|y b]; simpl; split;
    try congruence; try reflexivity.
  - intros H. apply andb_prop in H as [Hx Hab].
    apply Ascii.eqb_eq in Hx. apply IH in Hab. congruence.
  - intros H. injection H as -> ->.
    rewrite Ascii.eqb_refl. simpl. now apply IH.
Qed.

Lemma mem_In (x : str) (l : list str) : Py.mem x l = true <-> In x l.
Proof.
  unfold Py.mem. rewrite existsb_exists. split.
  - intros (y & Hy & E). apply str_eqb_eq in E. now subst.
  - intros H. exists x. split; [exact H | now apply str_eqb_eq].
Qed.

Lemma startswith_app (p s : str) :
  Py.startswith p s = true <-> exists t, s = p ++ t.
Proof.
  revert s; induction p as [|x p IH]; intros s; simpl.
  - split; [intros _; now exists s | reflexivity].
  - destruct s as [|y s].
    + split; [discriminate | intros (t & Ht); discriminate].
    + rewrite andb_true_iff, Ascii.eqb_eq, IH. split.
      * intros (-> & t & ->). now exists t.
      * intros (t & Ht). injection Ht as -> ->. split; [reflexivity | now exists t].
Qed.

Lemma contains_occurs (sub s : str) :
  Py.contains sub s = true <-> occurs_in sub s.
Proof.
  unfold occurs_in. induction s as [|c s IH].
  - simpl. rewrite orb_false_r, startswith_app. split.
    + intros (t & Ht). now exists [], t.
    + intros (pre & post & H). destruct pre; simpl in H.
      * now exists post.
      * discriminate.
  - cbn [Py.contains]. rewrite orb_true_iff, startswith_app, IH. split.
    + intros [(t & Ht) | (pre & post & Ht)].
      * now exists [], t.
      * exists (c :: pre), post. simpl. now rewrite Ht.
    + intros (pre & post & H). destruct pre as [|x pre]; simpl in H.
      * left. now exists post.
      * right. injection H as -> ->. now exists pre, post.
Qed.

Lemma contains_head_In (c : ascii) (sep s : str) :
  Py.contains (c :: sep) s = true -> In c s.
Proof.
  intros H. apply contains_occurs in H as (pre & post & ->).
  apply in_or_app. right. now left.
Qed.

(** ** The scan of the alias table *)

Lemma scan_variations_existsb part canonical variations normalized :
  scan_variations part canonical variations normalized =
  if existsb (variation_matches part) variations
  then (add_once canonical normalized, true)
  else (normalized, false).
Proof.
  induction variations as [|v vs IH]; simpl; [reflexivity |].
  destruct (variation_matches part v); simpl; [reflexivity | exact IH].
Qed.

Lemma scan_mappings_first part items normalized :
  scan_mappings part items normalized =
  match first_canonical part items with
  | Some canonical => (add_once canonical normalized, true)
  | None => (normalized, false)
  end.
Proof.
  unfold first_canonical.
  induction items as [|[c vs] items IH]; simpl; [reflexivity |].
  rewrite scan_variations_existsb.
  destruct (existsb (variation_matches part) vs); simpl; [reflexivity | exact IH].
Qed.

Lemma first_canonical_In part items canonical :
  first_canonical part items = Some canonical -> In canonical (map fst items).
Proof.
  unfold first_canonical. intros H.
  destruct (find _ items) as [[c vs]|] eqn:F; simpl in H; [|discriminate].
  injection H as <-. apply find_some in F as [F _].
  now apply (in_map fst) in F.
Qed.

Lemma canonical_names_nonempty : Forall (fun c : str => c <> []) (map fst mappings).
Proof. repeat constructor; discriminate. Qed.

(** ** The result is a non-empty list of non-empty strings *)

Lemma add_once_nonempty canonical normalized :
  canonical <> [] -> all_nonempty normalized ->
  all_nonempty (add_once canonical normalized).
Proof.
  intros Hc Hn. unfold add_once. destruct (Py.mem canonical normalized); [exact Hn|].
  apply Forall_app. split; [exact Hn | now constructor].
Qed.

Lemma title_nonempty (s : str) : s <> [] -> Py.title s <> [].
Proof. destruct s; [congruence | discriminate]. Qed.

Lemma is_empty_false {A : Type} (l : list A) : is_empty l = false <-> l <> [].
Proof. destruct l; simpl; split; congruence. Qed.

Lemma normalize_parts_nonempty parts normalized :
  all_nonempty normalized -> all_nonempty (normalize_parts parts normalized).
Proof.
  revert normalized; induction parts as [|part parts IH]; intros normalized Hn;
    cbn [normalize_parts]; [exact Hn |].
  destruct (is_empty (Py.strip part)) eqn:E; [now apply IH |].
  rewrite scan_mappings_first.
  destruct (first_canonical (Py.strip part) mappings) as [c|] eqn:F; apply IH.
  - apply add_once_nonempty; [|exact Hn].
    apply first_canonical_In in F.
    pose proof canonical_names_nonempty as Hall.
    rewrite List.Forall_forall in Hall. apply Hall. exact F.
  - apply Forall_app. split; [exact Hn |]. constructor; [|constructor].
    apply title_nonempty. now apply is_empty_false.
Qed.

Lemma or_not_specified_nonempty normalized :
  all_nonempty normalized ->
  or_not_specified normalized <> [] /\ all_nonempty (or_not_specified normalized).
Proof.
  intros H. unfold or_not_specified. destruct normalized as [|x l]; simpl.
  - split; [discriminate | repeat constructor; discriminate].
  - split; [discriminate | exact H].
Qed.

(** ** No step raises *)

Lemma split_from_length sep skip cur s : 1 <= length (Py.split_from sep skip cur s).
Proof.
  revert skip cur; induction s as [|c s IH]; intros skip cur; simpl; [lia |].
  destruct skip; [|apply IH].
  destruct (Py.startswith sep (c :: s)); [simpl; lia | apply IH].
Qed.

Lemma split_from_contains sep cur s :
  sep <> [] -> Py.contains sep s = true ->
  2 <= length (Py.split_from sep 0 cur s).
Proof.
  intros Hsep. revert cur; induction s as [|c s IH]; intros cur H.
  - destruct sep; [congruence | discriminate].
  - cbn [Py.contains] in H. cbn [Py.split_from].
    destruct (Py.startswith sep (c :: s)) eqn:E.
    + simpl. pose proof (split_from_length sep (length sep - 1) [] s). lia.
    + simpl in H. now apply IH.
Qed.

Lemma split_nonempty_sep sep s :
  sep <> [] -> Py.split sep s = Ok (Py.split_from sep 0 [] s).
Proof. destruct sep; [congruence | reflexivity]. Qed.

Lemma bind_Ok {A B : Type} (a : A) (f : A -> result B) : (Ok a ≫= f) = f a.
Proof. reflexivity. Qed.

Lemma email_domain_ok company : exists domain, email_domain company = Ok domain.
Proof.
  unfold email_domain.
  destruct (Py.contains (lit "@") company) eqn:E; cbn [andb]; [|now eexists].
  destruct (Re.match_anchored email_pattern company); [|now eexists].
  pose proof (split_from_contains (lit "@") [] company ltac:(discriminate) E) as L.
  rewrite split_nonempty_sep by discriminate. rewrite bind_Ok.
  unfold Py.index.
  destruct (Py.split_from (lit "@") 0 [] company) as [|a [|b l]];
    simpl in L; try lia.
  simpl. now eexists.
Qed.

Lemma split_on_first_ok company :
  exists parts, split_on_first separators company = Ok parts.
Proof.
  unfold separators. simpl.
  repeat match goal with
         | |- context [if ?b then _ else _] => destruct b
         end; now eexists.
Qed.

Lemma potential_parts_of_ok company :
  exists parts, potential_parts_of company = Ok parts.
Proof.
  unfold potential_parts_of.
  destruct (split_on_first_ok company) as (parts & ->). simpl. now eexists.
Qed.

Lemma normalize_returns company :
  exists result,
    normalize_company_name company = Ok result
    /\ result <> [] /\ all_nonempty result.
Proof.
  assert (Hns : [not_specified] <> [] /\ all_nonempty [not_specified]).
  { split; [discriminate | repeat constructor; discriminate]. }
  destruct company as [company|]; unfold normalize_company_name.
  2:{ eexists; split; [reflexivity | exact Hns]. }
  destruct (Py.str_eqb company (lit "-")).
  { eexists; split; [reflexivity | exact Hns]. }
  destruct (email_domain_ok (Py.lower (Py.strip company))) as (d & ->).
  rewrite bind_Ok.
  destruct (potential_parts_of_ok d) as (parts & ->). rewrite bind_Ok.
  eexists; split; [reflexivity |].
  apply or_not_specified_nonempty, normalize_parts_nonempty. constructor.
Qed.

(** ** Regular expressions: what a successful match says *)

Module ReFacts.
Import Re.

Lemma nullable_lang r : nullable r = true -> lang r [].
Proof.
  induction r; simpl; intros H; try discriminate.
  - constructor.
  - apply andb_prop in H as [H1 H2].
    change (@nil ascii) with (@nil ascii ++ []). constructor; auto.
  - apply orb_prop in H as [H|H]; [apply lang_alt_l | apply lang_alt_r]; auto.
  - constructor.
Qed.

Lemma deriv_lang c r : forall s, lang (deriv c r) s -> lang r (c :: s).
Proof.
  induction r; simpl; intros s H.
  - inversion H.
  - inversion H.
  - destruct (p c) eqn:E; inversion H; subst. now constructor.
  - destruct (nullable r1) eqn:N.
    + inversion H; subst.
      * match goal with X : lang (Cat _ _) _ |- _ => inversion X; subst end.
        change (c :: s1 ++ s2) with ((c :: s1) ++ s2). constructor; auto.
      * change (c :: s) with ([] ++ c :: s).
        constructor; [now apply nullable_lang | auto].
    + inversion H; subst.
      change (c :: s1 ++ s2) with ((c :: s1) ++ s2). constructor; auto.
  - inversion H; subst; [apply lang_alt_l | apply lang_alt_r]; auto.
  - inversion H; subst.
    change (c :: s1 ++ s2) with ((c :: s1) ++ s2). constructor; auto.
Qed.

Lemma fullmatch_lang s : forall r, fullmatch r s = true -> lang r s.
Proof.
  induction s as [|c s IH]; simpl; intros r H.
  - now apply nullable_lang.
  - now apply deriv_lang, IH.
Qed.

Lemma lang_star_class p s : lang (Star (Class p)) s -> forallb p s = true.
Proof.
  intros H. remember (Star (Class p)) as r eqn:E.
  induction H; try discriminate; [reflexivity |].
  injection E as ->. inversion H; subst. simpl.
  rewrite IHlang2 by reflexivity. now rewrite andb_true_r.
Qed.

Lemma lang_plus_class p s :
  lang (Plus (Class p)) s -> s <> [] /\ forallb p s = true.
Proof.
  intros H. inversion H; subst.
  match goal with X : lang (Class _) _ |- _ => inversion X; subst end.
  match goal with X : lang (Star _) _ |- _ => apply lang_star_class in X end.
  simpl. split; [discriminate | now apply andb_true_intro].
Qed.

Lemma lang_char k s : lang (Class (Ascii.eqb k)) s -> s = [k].
Proof.
  intros H. inversion H; subst.
  match goal with X : Ascii.eqb _ _ = true |- _ => apply Ascii.eqb_eq in X end.
  now subst.
Qed.

End ReFacts.

(** A string the email pattern accepts: local part, [@], domain with a
    dot before a final run of word characters, and possibly a newline. *)
Lemma email_shape (w : str) :
  Re.match_anchored email_pattern w = true ->
  exists l d x e,
    w = l ++ lit "@" ++ (d ++ lit "." ++ x) ++ e
    /\ (l <> [] /\ forallb email_char l = true)
    /\ (d <> [] /\ forallb email_char d = true)
    /\ (x <> [] /\ forallb Char.is_word x = true)
    /\ (e = [] \/ e = ["010"%char]).
Proof.
  intros H. apply ReFacts.fullmatch_lang in H.
  unfold email_pattern in H.
  inversion H as [| |? ? s1 e H1 He| | | |]; subst; clear H.
  inversion H1 as [| |? ? l s2 Hl H2| | | |]; subst; clear H1.
  inversion H2 as [| |? ? a s3 Ha H3| | | |]; subst; clear H2.
  inversion H3 as [| |? ? d s4 Hd H4| | | |]; subst; clear H3.
  inversion H4 as [| |? ? b x Hb Hx| | | |]; subst; clear H4.
  apply ReFacts.lang_char in Ha, Hb. subst a b.
  apply ReFacts.lang_plus_class in Hl, Hd, Hx.
  exists l, d, x, e. repeat split; try tauto.
  - unfold lit; simpl. rewrite <- !app_assoc. simpl.
    now rewrite <- !app_assoc.
  - inversion He; subst.
    + match goal with X : Re.lang Re.Eps _ |- _ => inversion X end. now left.
    + match goal with X : Re.lang (Re.Class _) _ |- _ =>
        apply ReFacts.lang_char in X end. now right.
Qed.

(** ** Characters of an email address *)

Lemma email_char_plain (c : ascii) :
  email_char c = true ->
  Char.is_space c = false
  /\ c <> "@"%char /\ c <> ","%char /\ c <> "/"%char
  /\ c <> " "%char /\ c <> "&"%char.
Proof.
  intros H. repeat split; revert H; each_char c.
Qed.

Lemma is_word_email_char (c : ascii) : Char.is_word c = true -> email_char c = true.
Proof. unfold email_char. now intros ->. Qed.

Lemma to_lower_space (c : ascii) : Char.is_space (Char.to_lower c) = Char.is_space c.
Proof. each_char c. Qed.

(** ** [strip] *)

Lemma lstrip_head (s : str) :
  match Py.lstrip s with
  | [] => True
  | c :: _ => Char.is_space c = false
  end.
Proof.
  induction s as [|c s IH]; simpl; [exact I |].
  destruct (Char.is_space c) eqn:E; [exact IH | exact E].
Qed.

Lemma strip_last (s t : str) (c : ascii) :
  Py.strip s = t ++ [c] -> Char.is_space c = false.
Proof.
  unfold Py.strip, Py.rstrip. intros H.
  pose proof (lstrip_head (rev (Py.lstrip s))) as L.
  destruct (Py.lstrip (rev (Py.lstrip s))) as [|c' r].
  - simpl in H. destruct t; discriminate.
  - simpl in H. apply app_inj_tail in H as [_ ->]. exact L.
Qed.

Lemma lstrip_no_space (s : str) :
  forallb (fun c => negb (Char.is_space c)) s = true -> Py.lstrip s = s.
Proof.
  destruct s as [|c s]; simpl; [reflexivity |].
  intros H. apply andb_prop in H as [H _].
  destruct (Char.is_space c); [discriminate | reflexivity].
Qed.

Lemma strip_no_space (s : str) :
  forallb (fun c => negb (Char.is_space c)) s = true -> Py.strip s = s.
Proof.
  intros H. unfold Py.strip, Py.rstrip. rewrite (lstrip_no_space s H).
  rewrite lstrip_no_space; [apply rev_involutive |].
  rewrite forallb_forall in *. intros c Hc. apply H. now apply in_rev.
Qed.

(** ** [split] *)

Lemma split_from_skip sep cur (xs rest : str) :
  Py.split_from sep (length xs) cur (xs ++ rest) = Py.split_from sep 0 cur rest.
Proof. induction xs as [|x xs IH]; simpl; [now destruct rest | exact IH]. Qed.

Lemma split_from_absent (c : ascii) (s cur : str) :
  ~ In c s -> Py.split_from [c] 0 cur s = [rev cur ++ s].
Proof.
  revert cur; induction s as [|y s IH]; intros cur H; simpl.
  - now rewrite app_nil_r.
  - destruct (Ascii.eqb c y) eqn:E.
    + apply Ascii.eqb_eq in E. subst. exfalso. apply H. now left.
    + simpl. rewrite IH by (intros Hin; apply H; now right).
      simpl. now rewrite <- app_assoc.
Qed.

Lemma split_from_at (c : ascii) (l d cur : str) :
  ~ In c l ->
  Py.split_from [c] 0 cur (l ++ c :: d) = (rev cur ++ l) :: Py.split_from [c] 0 [] d.
Proof.
  revert cur; induction l as [|y l IH]; intros cur H; simpl.
  - rewrite Ascii.eqb_refl. simpl. rewrite app_nil_r. now destruct d.
  - destruct (Ascii.eqb c y) eqn:E.
    + apply Ascii.eqb_eq in E. subst. exfalso. apply H. now left.
    + simpl. rewrite IH by (intros Hin; apply H; now right).
      simpl. now rewrite <- app_assoc.
Qed.

(** ** The email step *)

Lemma contains_absent (c : ascii) (sep s : str) :
  ~ In c s -> Py.contains (c :: sep) s = false.
Proof.
  intros H. destruct (Py.contains (c :: sep) s) eqn:E; [|reflexivity].
  exfalso. now apply H, (contains_head_In c sep).
Qed.

Lemma email_chars_not_In (d : str) (c : ascii) :
  forallb email_char d = true -> email_char c = false -> ~ In c d.
Proof.
  intros H Hc Hin. rewrite forallb_forall in H. apply H in Hin. congruence.
Qed.

Lemma email_chars_one_part (d : str) :
  forallb email_char d = true -> potential_parts_of d = Ok [d].
Proof.
  intros H. unfold potential_parts_of, separators, split_on_first, lit.
  cbn [list_ascii_of_string].
  rewrite !contains_absent by (apply email_chars_not_In; [exact H | reflexivity]).
  reflexivity.
Qed.

Lemma email_chars_strip (d : str) :
  forallb email_char d = true -> Py.strip d = d.
Proof.
  intros H. apply strip_no_space. rewrite forallb_forall in *.
  intros c Hc. apply H, email_char_plain in Hc as [-> _]. reflexivity.
Qed.

Lemma lower_strip_last (s t : str) (c : ascii) :
  Py.lower (Py.strip s) = t ++ [c] -> Char.is_space c = false.
Proof.
  unfold Py.lower. intros H.
  apply map_eq_app in H as (t' & u & Hs & _ & Hu).
  destruct u as [|c' [|? ?]]; try discriminate.
  injection Hu as <-. rewrite to_lower_space. exact (strip_last _ _ _ Hs).
Qed.

Lemma normalize_one_part (part : str) :
  part <> [] -> Py.strip part = part ->
  or_not_specified (normalize_parts [part] []) =
  [match first_canonical part mappings with
   | Some canonical => canonical
   | None => Py.title part
   end].
Proof.
  intros Hne Hs. cbn [normalize_parts]. rewrite Hs.
  destruct part as [|c part]; [congruence |]. cbn [is_empty].
  rewrite scan_mappings_first.
  destruct (first_canonical (c :: part) mappings); reflexivity.
Qed.

Lemma email_domain_of_address (w : str) :
  Re.match_anchored email_pattern w = true ->
  (forall t c, w = t ++ [c] -> Char.is_space c = false) ->
  exists l d,
    w = l ++ lit "@" ++ d
    /\ ~ In "@"%char l /\ ~ In "@"%char d
    /\ d <> [] /\ forallb email_char d = true
    /\ email_domain w = Ok d.
Proof.
  intros H Hlast.
  destruct (email_shape w H) as (l & d & x & e & Hw & [_ Hl] & [_ Hd] & [_ Hx] & He).
  assert (e = []) as ->.
  { destruct He as [-> | ->]; [reflexivity |]. exfalso.
    rewrite !app_assoc in Hw. apply Hlast in Hw. discriminate. }
  rewrite app_nil_r in Hw.
  assert (Hdom : forallb email_char (d ++ lit "." ++ x) = true).
  { rewrite !forallb_app, Hd. simpl. rewrite forallb_forall in *.
    intros c Hc. now apply is_word_email_char, Hx. }
  assert (Hl' : ~ In "@"%char l) by now apply email_chars_not_In.
  assert (Hd' : ~ In "@"%char (d ++ lit "." ++ x)) by now apply email_chars_not_In.
  exists l, (d ++ lit "." ++ x). repeat split; try assumption.
  - destruct d; discriminate.
  - unfold email_domain. rewrite H.
    replace (Py.contains (lit "@") w) with true
      by (symmetry; apply contains_occurs; exists l, (d ++ lit "." ++ x);
          rewrite Hw; reflexivity).
    cbn [andb]. rewrite split_nonempty_sep by discriminate. rewrite bind_Ok.
    rewrite Hw. unfold lit at 1 2. simpl list_ascii_of_string.
    change (l ++ ["@"%char] ++ ?r) with (l ++ "@"%char :: r).
    rewrite split_from_at by assumption.
    rewrite split_from_absent by assumption. reflexivity.
Qed.

(** ** Splitting and joining *)

Lemma join_cons sep p (l : list str) :
  l <> [] -> join sep (p :: l) = p ++ sep ++ join sep l.
Proof. destruct l; [congruence | reflexivity]. Qed.

Lemma split_from_not_nil sep skip cur s : Py.split_from sep skip cur s <> [].
Proof.
  pose proof (split_from_length sep skip cur s) as L.
  destruct (Py.split_from sep skip cur s); [simpl in L; lia | discriminate].
Qed.

Lemma startswith_cut sep (c : ascii) (t : str) :
  Py.startswith sep (c :: t) = true -> sep <> [] ->
  exists rest, c :: t = sep ++ rest /\ length rest <= length t
    /\ Py.split_from sep (length sep - 1) [] t = Py.split_from sep 0 [] rest.
Proof.
  intros H Hsep. apply startswith_app in H as (rest & Hr).
  destruct sep as [|x sep']; [congruence |]. injection Hr as -> ->.
  exists rest. split; [reflexivity |]. split.
  - rewrite length_app. lia.
  - simpl. rewrite Nat.sub_0_r. apply split_from_skip.
Qed.

Lemma join_split_from sep : sep <> [] ->
  forall n s cur, length s <= n ->
    join sep (Py.split_from sep 0 cur s) = rev cur ++ s.
Proof.
  intros Hsep. induction n as [|n IH]; intros s cur Hn.
  - destruct s; [|simpl in Hn; lia]. simpl. now rewrite app_nil_r.
  - destruct s as [|c t]; [simpl; now rewrite app_nil_r |].
    cbn [Py.split_from]. destruct (Py.startswith sep (c :: t)) eqn:E.
    + destruct (startswith_cut sep c t E Hsep) as (rest & Hr & Hlen & ->).
      rewrite join_cons by apply split_from_not_nil.
      rewrite IH by (simpl in Hn; lia). simpl. now rewrite Hr.
    + rewrite IH by (simpl in Hn; lia). simpl. now rewrite <- app_assoc.
Qed.

Lemma piece_clear_contains sep cur s :
  sep <> [] -> piece_clear sep cur s -> ~ occurs_in sep (rev cur).
Proof.
  intros Hsep Hc (pre & post & E).
  destruct sep as [|x sep']; [congruence |].
  - specialize (Hc pre ((x :: sep') ++ post) E ltac:(discriminate)).
    assert (Py.startswith (x :: sep') (((x :: sep') ++ post) ++ s) = true) as T.
    { apply startswith_app. exists (post ++ s). now rewrite app_assoc. }
    congruence.
Qed.

Lemma piece_clear_nil sep s : piece_clear sep [] s.
Proof. intros u v E Hv. destruct u, v; simpl in E; congruence. Qed.

Lemma piece_clear_step sep cur (c : ascii) (t : str) :
  piece_clear sep cur (c :: t) -> Py.startswith sep (c :: t) = false ->
  piece_clear sep (c :: cur) t.
Proof.
  intros Hc E u v Huv Hv. simpl in Huv.
  destruct (exists_last Hv) as (v' & y & ->).
  rewrite app_assoc in Huv. apply app_inj_tail in Huv as [Huv ->].
  rewrite <- app_assoc. simpl. destruct v' as [|z v'].
  - exact E.
  - apply (Hc u (z :: v') Huv). discriminate.
Qed.

Lemma split_from_pieces sep : sep <> [] ->
  forall n s cur, length s <= n -> piece_clear sep cur s ->
    Forall (fun p => ~ occurs_in sep p) (Py.split_from sep 0 cur s).
Proof.
  intros Hsep. induction n as [|n IH]; intros s cur Hn Hc.
  - destruct s; [|simpl in Hn; lia]. simpl.
    constructor; [now apply (piece_clear_contains sep cur [] Hsep) | constructor].
  - destruct s as [|c t].
    { simpl. constructor; [now apply (piece_clear_contains sep cur [] Hsep) | constructor]. }
    cbn [Py.split_from]. destruct (Py.startswith sep (c :: t)) eqn:E.
    + destruct (startswith_cut sep c t E Hsep) as (rest & Hr & Hlen & ->).
      constructor; [now apply (piece_clear_contains sep cur (c :: t) Hsep) |].
      apply IH; [simpl in Hn; lia | apply piece_clear_nil].
    + apply IH; [simpl in Hn; lia | now apply piece_clear_step].
Qed.

(** What [split] returns for a separator that is not empty. *)
Lemma split_pieces sep s :
  sep <> [] ->
  exists pieces,
    Py.split sep s = Ok pieces
    /\ join sep pieces = s
    /\ Forall (fun p => ~ occurs_in sep p) pieces.
Proof.
  intros Hsep. exists (Py.split_from sep 0 [] s).
  split; [now apply split_nonempty_sep |]. split.
  - now apply (join_split_from sep Hsep (length s)).
  - apply (split_from_pieces sep Hsep (length s)); [lia | apply piece_clear_nil].
Qed.

Lemma split_on_first_find (seps : list str) (company : str) :
  Forall (fun sep : str => sep <> []) seps ->
  match find (fun sep => Py.contains sep company) seps with
  | Some sep =>
      exists pieces,
        Py.split sep company = Ok pieces
        /\ join sep pieces = company
        /\ Forall (fun p => ~ occurs_in sep p) pieces
        /\ split_on_first seps company = Ok (map Py.strip pieces)
        /\ pieces <> []
  | None => split_on_first seps company = Ok []
  end.
Proof.
  induction 1 as [|sep seps Hsep _ IH]; simpl; [reflexivity |].
  destruct (Py.contains sep company) eqn:E; [|exact IH].
  destruct (split_pieces sep company Hsep) as (pieces & Hs & Hj & Hp).
  exists pieces. rewrite Hs. repeat split; try assumption.
  rewrite split_nonempty_sep in Hs by assumption. injection Hs as <-.
  apply split_from_not_nil.
Qed.

(** ** The first matching canonical name *)

Lemma variation_matches_iff part variation :
  variation_matches part variation = true <-> matches_variation part variation.
Proof.
  unfold variation_matches, matches_variation.
  now rewrite orb_true_iff, !contains_occurs.
Qed.

Lemma existsb_matches part variations :
  existsb (variation_matches part) variations = true
  <-> matches_canonical part variations.
Proof.
  unfold matches_canonical. rewrite existsb_exists, List.Exists_exists.
  split; intros (v & Hv & H); exists v; (split; [exact Hv |]);
    now apply variation_matches_iff.
Qed.

Lemma first_canonical_Some part items canonical :
  first_canonical part items = Some canonical <->
  exists pre variations post,
    items = pre ++ (canonical, variations) :: post
    /\ matches_canonical part variations
    /\ Forall (fun item => ~ matches_canonical part (snd item)) pre.
Proof.
  unfold first_canonical. induction items as [|[c vs] items IH]; simpl.
  - split; [discriminate | intros (pre & ? & ? & E & _); destruct pre; discriminate].
  - destruct (existsb (variation_matches part) vs) eqn:E; simpl.
    + apply existsb_matches in E. split.
      * intros [= ->]. exists [], vs, items. repeat split; [exact E | constructor].
      * intros (pre & vs' & post & Hi & Hm & Hpre).
        destruct pre as [|[c' vs''] pre]; simpl in Hi.
        -- now injection Hi as -> -> _.
        -- injection Hi as -> -> _. inversion Hpre; subst. simpl in *. tauto.
    + rewrite IH. split.
      * intros (pre & vs' & post & -> & Hm & Hpre).
        exists ((c, vs) :: pre), vs', post. repeat split; [exact Hm |].
        constructor; [|exact Hpre]. simpl. rewrite <- existsb_matches. congruence.
      * intros (pre & vs' & post & Hi & Hm & Hpre).
        destruct pre as [|[c' vs''] pre]; simpl in Hi.
        -- injection Hi as -> -> _. apply existsb_matches in Hm. congruence.
        -- injection Hi as -> -> ->. inversion Hpre; subst.
           exists pre, vs', post. repeat split; assumption.
Qed.

Lemma first_canonical_None part items :
  first_canonical part items = None <->
  Forall (fun item => ~ matches_canonical part (snd item)) items.
Proof.
  unfold first_canonical. induction items as [|[c vs] items IH]; simpl.
  - split; [constructor | reflexivity].
  - destruct (existsb (variation_matches part) vs) eqn:E; simpl.
    + apply existsb_matches in E. split; [discriminate |].
      intros H. inversion H; subst. simpl in *. tauto.
    + rewrite IH. split.
      * intros H. constructor; [|exact H]. simpl.
        rewrite <- existsb_matches. congruence.
      * intros H. now inversion H.
Qed.

(** * The claims about [normalize_company_name] *)

(** C1, as the code behaves: the check [canonical not in normalized]
    guards only the branch of a matched fragment; an unmatched fragment
    is appended in title case without it.  On ["xyz, xyz"] the result
    holds ["Xyz"] twice, so it is not free of duplicates. *)
Theorem unmatched_fragment_appended_twice :
  normalize_company_name (Some (lit "xyz, xyz")) = Ok [lit "Xyz"; lit "Xyz"]
  /\ ~ NoDup [lit "Xyz"; lit "Xyz"].
Proof.
  split; [vm_compute; reflexivity |].
  intros H. inversion H as [|? ? Hin _]; subst. apply Hin. now left.
Qed.

(** C2: a missing value, the empty string and the placeholder ["-"]
    each give exactly [["Not specified"]]. *)
Theorem missing_or_placeholder_not_specified :
  normalize_company_name None = Ok [lit "Not specified"]
  /\ normalize_company_name (Some []) = Ok [lit "Not specified"]
  /\ normalize_company_name (Some (lit "-")) = Ok [lit "Not specified"].
Proof. repeat split; vm_compute; reflexivity. Qed.

(** C3: for every input, missing or a string, the sequence returned is
    not empty and holds no empty string. *)
Theorem result_nonempty_of_nonempty_strings (company : option str) :
  exists result,
    normalize_company_name company = Ok result
    /\ result <> []
    /\ Forall (fun name : str => name <> []) result.
Proof. exact (normalize_returns company). Qed.

(** C4: a fragment matches a variation exactly when one of the two
    occurs in the other; the scan of the table gives the first canonical
    name, in insertion order, one of whose variations matches, and
    nothing after it is looked at; a fragment with no match is kept in
    title case.  ["Technion - Israel Institute of Technology"] gives
    [["Technion"]]. *)
Theorem first_matching_canonical_wins :
  (forall part variation,
      variation_matches part variation = true
      <-> (occurs_in variation part \/ occurs_in part variation))
  /\ (forall part canonical,
         first_canonical part mappings = Some canonical
         <-> exists earlier variations later,
               mappings = earlier ++ (canonical, variations) :: later
               /\ matches_canonical part variations
               /\ Forall (fun item => ~ matches_canonical part (snd item)) earlier)
  /\ (forall part,
         first_canonical part mappings = None
         <-> Forall (fun item => ~ matches_canonical part (snd item)) mappings)
  /\ (forall part normalized,
         scan_mappings part mappings normalized =
         match first_canonical part mappings with
         | Some canonical => (add_once canonical normalized, true)
         | None => (normalized, false)
         end)
  /\ (forall part rest normalized,
         normalize_parts (part :: rest) normalized =
         if is_empty (Py.strip part) then normalize_parts rest normalized
         else normalize_parts rest
                match first_canonical (Py.strip part) mappings with
                | Some canonical => add_once canonical normalized
                | None => normalized ++ [Py.title (Py.strip part)]
                end)
  /\ normalize_company_name
       (Some (lit "Technion - Israel Institute of Technology"))
     = Ok [lit "Technion"].
Proof.
  split; [exact variation_matches_iff |].
  split; [intros; apply first_canonical_Some |].
  split; [intros; apply first_canonical_None |].
  split; [intros; apply scan_mappings_first |].
  split; [|vm_compute; reflexivity].
  intros part rest normalized. cbn [normalize_parts].
  destruct (is_empty (Py.strip part)); [reflexivity |].
  rewrite scan_mappings_first.
  destruct (first_canonical (Py.strip part) mappings); reflexivity.
Qed.

(** C5: with [w] the lowercased, trimmed input and [company] the value
    after the email step ([w] itself unless the email check succeeds),
    the fragments are the stripped pieces of [company] cut at the first
    of [","], ["/"], [" and "], ["&"] that occurs in it (the pieces
    joined by that separator give [company] back, and the separator
    occurs in none of them), and [company] alone when none occurs; the
    result is computed from these fragments.  ["Bar Ilan / Google"]
    gives [["Bar Ilan University"; "Google"]]. *)
Theorem fragments_at_first_separator :
  (forall raw : str,
      let w := Py.lower (Py.strip raw) in
      exists company fragments,
        email_domain w = Ok company
        /\ company =
           (if Py.contains (lit "@") w && Re.match_anchored email_pattern w
            then company else w)
        /\ potential_parts_of company = Ok fragments
        /\ match find (fun sep => Py.contains sep company)
                   [lit ","; lit "/"; lit " and "; lit "&"] with
           | Some sep =>
               exists pieces,
                 Py.split sep company = Ok pieces
                 /\ join sep pieces = company
                 /\ Forall (fun piece => ~ occurs_in sep piece) pieces
                 /\ fragments = map Py.strip pieces
           | None => fragments = [company]
           end
        /\ normalize_company_name (Some raw) =
           if Py.str_eqb raw (lit "-") then Ok [lit "Not specified"]
           else Ok (or_not_specified (normalize_parts fragments [])))
  /\ normalize_company_name (Some (lit "Bar Ilan / Google"))
     = Ok [lit "Bar Ilan University"; lit "Google"].
Proof.
  split; [|vm_compute; reflexivity].
  intros raw w.
  destruct (email_domain_ok w) as (company & Hd).
  destruct (potential_parts_of_ok company) as (fragments & Hp).
  exists company, fragments. split; [exact Hd |]. split.
  { unfold email_domain in Hd.
    destruct (Py.contains (lit "@") w && Re.match_anchored email_pattern w);
      congruence. }
  split; [exact Hp |]. split.
  - assert (Hseps : Forall (fun sep : str => sep <> []) separators)
      by (repeat constructor; discriminate).
    pose proof (split_on_first_find separators company Hseps) as F.
    unfold potential_parts_of in Hp. fold separators.
    destruct (find (fun sep => Py.contains sep company) separators) as [sep|].
    + destruct F as (pieces & Hs & Hj & Hn & Hf & Hne).
      exists pieces. repeat split; try assumption.
      rewrite Hf, bind_Ok in Hp. destruct pieces; [congruence |].
      simpl in Hp. now injection Hp as <-.
    + rewrite F, bind_Ok in Hp. simpl in Hp. now injection Hp as <-.
  - unfold normalize_company_name. fold w.
    destruct (Py.str_eqb raw (lit "-")); [reflexivity |].
    rewrite Hd, bind_Ok, Hp, bind_Ok. reflexivity.
Qed.

(** C6: when the lowercased, trimmed input matches the email pattern,
    it is a local part, ["@"] and a domain, and the result is computed
    from the domain alone: the first canonical name the domain matches,
    or the domain in title case.  ["some-unlisted-lab@example.com"]
    gives [["Example.Com"]]. *)
Theorem email_classified_by_domain :
  (forall raw : str,
      Re.match_anchored email_pattern (Py.lower (Py.strip raw)) = true ->
      exists local domain,
        Py.lower (Py.strip raw) = local ++ lit "@" ++ domain
        /\ ~ In "@"%char local /\ ~ In "@"%char domain
        /\ email_domain (Py.lower (Py.strip raw)) = Ok domain
        /\ potential_parts_of domain = Ok [domain]
        /\ normalize_company_name (Some raw) =
           Ok [match first_canonical domain mappings with
               | Some canonical => canonical
               | None => Py.title domain
               end])
  /\ email_domain (lit "some-unlisted-lab@example.com") = Ok (lit "example.com")
  /\ first_canonical (lit "example.com") mappings = None
  /\ normalize_company_name (Some (lit "some-unlisted-lab@example.com"))
     = Ok [lit "Example.Com"].
Proof.
  split; [|repeat split; vm_compute; reflexivity].
  intros raw H.
  destruct (email_domain_of_address _ H (lower_strip_last raw))
    as (l & d & Hw & Hl & Hd & Hne & Hchars & Hdom).
  exists l, d. repeat split; try assumption.
  - now apply email_chars_one_part.
  - unfold normalize_company_name.
    destruct (Py.str_eqb raw (lit "-")) eqn:E.
    { apply str_eqb_eq in E. subst raw. vm_compute in H. discriminate. }
    rewrite Hdom, bind_Ok, (email_chars_one_part d Hchars), bind_Ok.
    unfold mret, result_ret. f_equal.
    apply normalize_one_part; [exact Hne | now apply email_chars_strip].
Qed.

(** C6 at an address whose domain is in the table. *)
Lemma email_classified_by_domain_witness :
  exists local domain,
    Py.lower (Py.strip (lit " Dana.Levi@Research.IBM.com "))
      = local ++ lit "@" ++ domain
    /\ ~ In "@"%char local /\ ~ In "@"%char domain
    /\ email_domain (Py.lower (Py.strip (lit " Dana.Levi@Research.IBM.com ")))
       = Ok domain
    /\ potential_parts_of domain = Ok [domain]
    /\ normalize_company_name (Some (lit " Dana.Levi@Research.IBM.com ")) =
       Ok [match first_canonical domain mappings with
           | Some canonical => canonical
           | None => Py.title domain
           end].
Proof.
  apply (proj1 email_classified_by_domain (lit " Dana.Levi@Research.IBM.com ")).
  vm_compute. reflexivity.
Defined.

(** C7, as the code behaves: every canonical name of the table is
    returned unchanged, except ["AI21"]: lowercased to ["ai21"], it
    contains the variation ["ai2"] of the entry before its own, and the
    result is [["ai2"]]. *)
Theorem canonical_AI21_resolves_to_ai2 :
  normalize_company_name (Some (lit "AI21")) = Ok [lit "ai2"]
  /\ In (lit "AI21") (map fst mappings)
  /\ Forall (fun canonical =>
               normalize_company_name (Some canonical) =
               Ok [if Py.str_eqb canonical (lit "AI21") then lit "ai2"
                   else canonical])
            (map fst mappings).
Proof.
  split; [vm_compute; reflexivity |].
  split; [right; left; reflexivity |].
  repeat constructor.
Qed.

(** C8: no step raises.  For every input the email step returns a
    value (the index [[1]] is taken only of a list of two items or
    more), the separators are not empty so that [split] is defined, and
    the call returns a list. *)
Theorem normalize_total :
  (forall w, exists company, email_domain w = Ok company)
  /\ (forall company, exists fragments, potential_parts_of company = Ok fragments)
  /\ (forall company : option str,
         exists result, normalize_company_name company = Ok result).
Proof.
  split; [exact email_domain_ok |].
  split; [exact potential_parts_of_ok |].
  intros company. destruct (normalize_returns company) as (result & H & _).
  now exists result.
Qed.

(** ** The function over the store *)

Module HeapFacts.
Lemma bind_run {A B : Type} (m : Heap.M A) (f : A -> Heap.M B) (σ : Heap.store) :
  (m ≫= f) σ =
  match m σ with
  | Ok (a, σ') => f a σ'
  | Raise e => Raise e
  end.
Proof. reflexivity. Qed.

Lemma scan_variations_run part canonical variations n (σ : Heap.store) items :
  σ !! n = Some items ->
  Heap.scan_variations part canonical variations n σ =
  let '(items', matched) := scan_variations part canonical variations items in
  Ok (matched, <[n := items']> σ).
Proof.
  intros Hn. induction variations as [|v vs IH]; simpl.
  - now rewrite insert_id.
  - destruct (variation_matches part v); [|exact IH].
    rewrite bind_run. unfold Heap.read_list. rewrite Hn. rewrite bind_run.
    destruct (Py.mem canonical items).
    + simpl. now rewrite insert_id.
    + unfold Heap.append. rewrite Hn. reflexivity.
Qed.

Lemma scan_mappings_run part table n : forall (σ : Heap.store) items,
  σ !! n = Some items ->
  Heap.scan_mappings part table n σ =
  let '(items', matched) := scan_mappings part table items in
  Ok (matched, <[n := items']> σ).
Proof.
  induction table as [|[c vs] table IH]; intros σ items Hn; simpl.
  - now rewrite insert_id.
  - rewrite bind_run, (scan_variations_run _ _ _ _ _ _ Hn).
    destruct (scan_variations part c vs items) as [items' [|]]; [reflexivity |].
    rewrite (IH _ items') by apply lookup_insert_eq.
    destruct (scan_mappings part table items') as [items'' matched].
    now rewrite insert_insert_eq.
Qed.

Lemma normalize_parts_run parts n : forall (σ : Heap.store) items,
  σ !! n = Some items ->
  Heap.normalize_parts parts n σ =
  Ok (tt, <[n := normalize_parts parts items]> σ).
Proof.
  induction parts as [|part parts IH]; intros σ items Hn;
    cbn [Heap.normalize_parts normalize_parts].
  - unfold mret, Heap.M_ret. now rewrite insert_id.
  - destruct (is_empty (Py.strip part)); [now apply IH |].
    rewrite bind_run, (scan_mappings_run _ _ _ _ _ Hn).
    destruct (scan_mappings (Py.strip part) mappings items) as [items' [|]];
      rewrite bind_run.
    + unfold mret at 1, Heap.M_ret at 1.
      rewrite (IH _ items') by apply lookup_insert_eq.
      now rewrite insert_insert_eq.
    + unfold Heap.append. rewrite lookup_insert_eq.
      rewrite insert_insert_eq.
      rewrite (IH _ (items' ++ [Py.title (Py.strip part)]))
        by apply lookup_insert_eq.
      now rewrite insert_insert_eq.
Qed.

Lemma fresh_lookup (σ : Heap.store) : σ !! fresh (dom σ) = None.
Proof. apply not_elem_of_dom, is_fresh. Qed.

Lemma new_list_run items (σ : Heap.store) :
  exists l, Heap.new_list items σ = Ok (l, <[l := items]> σ) /\ σ !! l = None.
Proof. exists (fresh (dom σ)). split; [reflexivity | apply fresh_lookup]. Qed.

(** One call: it returns a reference to a list object that did not
    exist before, holding the list the function of the input gives, and
    every object that existed before is as it was. *)
Lemma call_frame (company : option str) (σ : Heap.store) :
  exists l σ' result,
    Heap.normalize_company_name company σ = Ok (l, σ')
    /\ normalize_company_name company = Ok result
    /\ σ' !! l = Some result
    /\ σ !! l = None
    /\ σ ⊆ σ'.
Proof.
  assert (Hnew : forall items,
    exists l σ', Heap.new_list items σ = Ok (l, σ') /\ σ' !! l = Some items
                 /\ σ !! l = None /\ σ ⊆ σ').
  { intros items. destruct (new_list_run items σ) as (l & Hl & Hf).
    exists l, (<[l := items]> σ). repeat split; try assumption.
    - apply lookup_insert_eq.
    - now apply insert_subseteq. }
  destruct company as [company|];
    unfold Heap.normalize_company_name, normalize_company_name.
  2:{ destruct (Hnew [not_specified]) as (l & σ' & H1 & H2 & H3 & H4).
      exists l, σ', [not_specified]. now repeat split. }
  destruct (Py.str_eqb company (lit "-")).
  { destruct (Hnew [not_specified]) as (l & σ' & H1 & H2 & H3 & H4).
    exists l, σ', [not_specified]. now repeat split. }
  destruct (email_domain_ok (Py.lower (Py.strip company))) as (d & ->).
  destruct (potential_parts_of_ok d) as (parts & Hp).
  rewrite bind_Ok, Hp, bind_Ok, !bind_run. unfold Heap.lift at 1.
  rewrite bind_run. rewrite Hp. unfold Heap.lift.
  rewrite bind_run.
  destruct (new_list_run [] σ) as (n & -> & Hn).
  rewrite bind_run.
  rewrite (normalize_parts_run parts n _ []) by apply lookup_insert_eq.
  rewrite insert_insert_eq, bind_run. unfold Heap.read_list.
  rewrite lookup_insert_eq. unfold or_not_specified.
  destruct (normalize_parts parts []) as [|x items] eqn:E; cbn [is_empty].
  - destruct (new_list_run [not_specified] (<[n := []]> σ)) as (l & -> & Hl).
    exists l, (<[l := [not_specified]]> (<[n := []]> σ)), [not_specified].
    repeat split.
    + apply lookup_insert_eq.
    + destruct (σ !! l) eqn:L; [|reflexivity].
      assert (<[n := []]> σ !! l = Some l0) as C
        by (eapply lookup_weaken; [exact L | now apply insert_subseteq]).
      congruence.
    + etrans; [apply insert_subseteq; exact Hn | now apply insert_subseteq].
  - exists n, (<[n := x :: items]> σ), (x :: items). repeat split.
    + apply lookup_insert_eq.
    + exact Hn.
    + now apply insert_subseteq.
Qed.

End HeapFacts.

(** C9: a call depends on its input and the table only, and changes
    nothing another call can see.  From any store, a call returns a
    reference to a new list object that holds the value the function
    gives for that input, and leaves every object of the store as it
    was; so a second call with the same input returns an equal list in
    another object, and the list of the first call is still what it
    was. *)
Theorem normalize_pure_and_deterministic (company : option str) (σ : Heap.store) :
  (exists l σ' result,
      Heap.normalize_company_name company σ = Ok (l, σ')
      /\ normalize_company_name company = Ok result
      /\ σ' !! l = Some result
      /\ σ !! l = None
      /\ σ ⊆ σ')
  /\ (exists l1 σ1 l2 σ2 result,
         Heap.normalize_company_name company σ = Ok (l1, σ1)
         /\ Heap.normalize_company_name company σ1 = Ok (l2, σ2)
         /\ σ1 !! l1 = Some result
         /\ σ2 !! l2 = Some result
         /\ σ2 !! l1 = Some result
         /\ l1 <> l2).
Proof.
  split; [apply HeapFacts.call_frame |].
  destruct (HeapFacts.call_frame company σ)
    as (l1 & σ1 & r1 & Hrun1 & Hr1 & Hl1 & _ & _).
  destruct (HeapFacts.call_frame company σ1)
    as (l2 & σ2 & r2 & Hrun2 & Hr2 & Hl2 & Hfresh & Hsub).
  assert (r2 = r1) as -> by congruence.
  exists l1, σ1, l2, σ2, r1. repeat split; try assumption.
  - eapply lookup_weaken; eassumption.
  - intros ->. congruence.
Qed.

(** * The poster page *)

Module PostersFacts.
Import Posters.

Lemma replace_char (c : ascii) (new s : str) :
  Py.replace [c] new s =
  flat_map (fun x => if Ascii.eqb c x then new else [x]) s.
Proof.
  unfold Py.replace. induction s as [|x s IH]; simpl; [reflexivity |].
  rewrite andb_true_r. destruct (Ascii.eqb c x); simpl; now rewrite IH.
Qed.

Lemma escape_char (c : ascii) : escape [c] = entity c.
Proof. each_char c. Qed.

Lemma escape_app (s t : str) : escape (s ++ t) = escape s ++ escape t.
Proof.
  unfold escape, lit. cbn [list_ascii_of_string].
  now rewrite !replace_char, !flat_map_app.
Qed.

Lemma escape_entities (s : str) : escape s = flat_map entity s.
Proof.
  induction s as [|c s IH]; [reflexivity |].
  change (c :: s) with ([c] ++ s). rewrite escape_app, escape_char, IH.
  reflexivity.
Qed.

Lemma entity_no_angle (c x : ascii) :
  In x (entity c) -> x <> "<"%char /\ x <> ">"%char.
Proof.
  assert (H : forallb (fun x => negb (Ascii.eqb x "<"%char)
                                && negb (Ascii.eqb x ">"%char)) (entity c) = true)
    by each_char c.
  rewrite forallb_forall in H. intros Hx. apply H in Hx.
  apply andb_prop in Hx as [H1 H2].
  split; intros ->; discriminate.
Qed.

Lemma entities_no_angle (s : str) (x : ascii) :
  In x (flat_map entity s) -> x <> "<"%char /\ x <> ">"%char.
Proof.
  rewrite in_flat_map. intros (c & _ & Hx). now apply (entity_no_angle c).
Qed.

Lemma add_posters_text posters html :
  add_posters posters html = html ++ flat_map poster_text posters.
Proof.
  revert html; induction posters as [|p posters IH]; intros html; simpl.
  - now rewrite app_nil_r.
  - rewrite IH, !escape_entities, <- app_assoc. reflexivity.
Qed.

Lemma add_sessions_text (pbs : gmap Z (list poster)) ids : forall html,
  Forall (fun k => is_Some (pbs !! k) /\ is_Some (session_times !! k)) ids ->
  add_sessions pbs ids html = Ok (html ++ flat_map (session_text pbs) ids).
Proof.
  induction ids as [|k ids IH]; intros html H; cbn [add_sessions flat_map].
  - now rewrite app_nil_r.
  - inversion H as [|? ? [[posters Hp] [time Ht]] Hrest]; subst.
    unfold getitem. rewrite Hp, bind_Ok, Ht, bind_Ok.
    rewrite IH by exact Hrest. unfold session_text, str in *. rewrite Hp, Ht.
    cbn [from_option id]. rewrite add_posters_text. now rewrite <- !app_assoc.
Qed.

Lemma sorted_keys_In {A : Type} (d : gmap Z A) (k : Z) :
  In k (sorted_keys d) <-> is_Some (d !! k).
Proof.
  unfold sorted_keys. rewrite <- list_elem_of_In, merge_sort_Permutation.
  rewrite list_elem_of_fmap. split.
  - intros ([k' v] & -> & H). apply elem_of_map_to_list in H. now exists v.
  - intros [v H]. exists (k, v). split; [reflexivity |].
    now apply elem_of_map_to_list.
Qed.

End PostersFacts.

(** The elements of a poster inside the text [generate_html] adds for
    it. *)
Lemma poster_item_markup (title_text authors_text : str) :
  Posters.poster_item title_text authors_text =
  item_before ++ poster_markup title_text authors_text ++ item_after.
Proof.
  unfold Posters.poster_item, poster_markup, item_before, item_after,
    Posters.quoted, Posters.sp, Posters.nl.
  repeat rewrite <- app_assoc. reflexivity.
Qed.

(** Every poster of a list has its elements in the text of the list. *)
Lemma posters_markup (posters : list Posters.poster) (p : Posters.poster) :
  In p posters ->
  exists before after,
    flat_map poster_text posters =
    before
      ++ poster_markup (flat_map entity (Posters.title p))
                       (flat_map entity (Posters.authors p))
      ++ after.
Proof.
  intros Hp. apply in_split in Hp as (l1 & l2 & ->).
  exists (flat_map poster_text l1 ++ item_before),
         (item_after ++ flat_map poster_text l2).
  rewrite flat_map_app. cbn [flat_map].
  assert (poster_text p =
          item_before
            ++ poster_markup (flat_map entity (Posters.title p))
                             (flat_map entity (Posters.authors p))
            ++ item_after) as -> by (unfold poster_text; apply poster_item_markup).
  generalize (poster_markup (flat_map entity (Posters.title p))
                (flat_map entity (Posters.authors p))).
  generalize item_before, item_after, (flat_map poster_text l1),
    (flat_map poster_text l2).
  intros a b c d m. now rewrite <- !app_assoc.
Qed.

Lemma poster_markup_then_eq (title_text authors_text rest : str) :
  poster_markup_then title_text authors_text rest =
  poster_markup title_text authors_text ++ rest.
Proof.
  unfold poster_markup_then, poster_markup.
  repeat rewrite <- app_assoc. reflexivity.
Qed.


(** C10: when every session of the input has a time (as for the dict
    [load_posters] builds), the page is the head, one column for each
    session in increasing order, and the tail.  For every poster of
    every session the page holds the element of class [poster-title]
    and, on the next line, the element of class [poster-authors], whose
    texts are the escaped title and the escaped authors: each character
    replaced by its entity (["&amp;"], ["&lt;"], ["&gt;"], or the
    character itself).  This is what the chain of [replace] calls
    computes, and no ["<"] or [">"] is among the characters it gives. *)
Theorem poster_text_escaped (page_head page_tail : str)
    (posters_by_session : gmap Z (list Posters.poster)) :
  dom posters_by_session ⊆ dom Posters.session_times ->
  Posters.generate_html page_head page_tail posters_by_session =
    Ok (page_head
          ++ flat_map (session_text posters_by_session)
               (Posters.sorted_keys posters_by_session)
          ++ page_tail)
  /\ (forall session_id,
         In session_id (Posters.sorted_keys posters_by_session)
         <-> is_Some (posters_by_session !! session_id))
  /\ (forall session_id posters p,
         posters_by_session !! session_id = Some posters -> In p posters ->
         exists html before after,
           Posters.generate_html page_head page_tail posters_by_session
             = Ok html
           /\ html =
              before
                ++ lit "<div class=" ++ ["034"%char] ++ lit "poster-title"
                ++ ["034"%char] ++ lit ">"
                ++ Posters.escape (Posters.title p) ++ lit "</div>"
                ++ ["010"%char] ++ repeat " "%char 14
                ++ lit "<div class=" ++ ["034"%char] ++ lit "poster-authors"
                ++ ["034"%char] ++ lit ">"
                ++ Posters.escape (Posters.authors p) ++ lit "</div>"
                ++ after)
  /\ (forall s, Posters.escape s = flat_map entity s)
  /\ (forall s c, In c (Posters.escape s) -> c <> "<"%char /\ c <> ">"%char).
Proof.
  intros Hdom.
  assert (Hpage :
    Posters.generate_html page_head page_tail posters_by_session =
    Ok (page_head
          ++ flat_map (session_text posters_by_session)
               (Posters.sorted_keys posters_by_session)
          ++ page_tail)).
  { unfold Posters.generate_html.
    rewrite PostersFacts.add_sessions_text.
    + rewrite bind_Ok. unfold mret, result_ret. now rewrite <- app_assoc.
    + apply List.Forall_forall. intros k Hk.
      apply PostersFacts.sorted_keys_In in Hk. split; [exact Hk |].
      apply elem_of_dom, Hdom, elem_of_dom, Hk. }
  split; [exact Hpage |].
  split; [apply PostersFacts.sorted_keys_In |].
  split; [|split; [apply PostersFacts.escape_entities |]].
  - intros session_id posters p Hs Hp.
    assert (In session_id (Posters.sorted_keys posters_by_session)) as Hin
      by (apply PostersFacts.sorted_keys_In; now exists posters).
    apply in_split in Hin as (k1 & k2 & Hk).
    destruct (posters_markup posters p Hp) as (b & a & Hm).
    exists (page_head
              ++ flat_map (session_text posters_by_session)
                   (Posters.sorted_keys posters_by_session)
              ++ page_tail).
    exists (page_head
              ++ flat_map (session_text posters_by_session) k1
              ++ Posters.session_open session_id
                   (default [] (Posters.session_times !! session_id))
              ++ b).
    exists (a ++ Posters.session_close
              ++ flat_map (session_text posters_by_session) k2 ++ page_tail).
    split; [exact Hpage |].
    match goal with
    | |- ?page = ?before ++ _ =>
        change (page = before
                  ++ poster_markup_then (Posters.escape (Posters.title p))
                       (Posters.escape (Posters.authors p))
                       (a ++ Posters.session_close
                          ++ flat_map (session_text posters_by_session) k2
                          ++ page_tail))
    end.
    rewrite Hk, flat_map_app. cbn [flat_map].
    assert (session_text posters_by_session session_id =
            Posters.session_open session_id
              (default [] (Posters.session_times !! session_id))
            ++ (b ++ poster_markup (flat_map entity (Posters.title p))
                       (flat_map entity (Posters.authors p)) ++ a)
            ++ Posters.session_close) as ->.
    { unfold session_text. unfold str in *. rewrite Hs. cbn [from_option id].
      now rewrite Hm. }
    rewrite !PostersFacts.escape_entities.
    rewrite poster_markup_then_eq.
    generalize (poster_markup (flat_map entity (Posters.title p))
                  (flat_map entity (Posters.authors p))).
    generalize (Posters.session_open session_id
                  (default [] (Posters.session_times !! session_id))),
      Posters.session_close,
      (flat_map (session_text posters_by_session) k1),
      (flat_map (session_text posters_by_session) k2).
    intros o c f1 f2 m. now rewrite <- !app_assoc.
  - intros s c. rewrite PostersFacts.escape_entities.
    apply PostersFacts.entities_no_angle.
Qed.

Lemma poster_text_escaped_witness :
  Posters.generate_html (lit "<html>") (lit "</html>") demo_posters =
    Ok (lit "<html>"
          ++ flat_map (session_text demo_posters)
               (Posters.sorted_keys demo_posters)
          ++ lit "</html>")
  /\ (forall session_id,
         In session_id (Posters.sorted_keys demo_posters)
         <-> is_Some (demo_posters !! session_id))
  /\ (forall session_id posters p,
         demo_posters !! session_id = Some posters -> In p posters ->
         exists html before after,
           Posters.generate_html (lit "<html>") (lit "</html>") demo_posters
             = Ok html
           /\ html =
              before
                ++ lit "<div class=" ++ ["034"%char] ++ lit "poster-title"
                ++ ["034"%char] ++ lit ">"
                ++ Posters.escape (Posters.title p) ++ lit "</div>"
                ++ ["010"%char] ++ repeat " "%char 14
                ++ lit "<div class=" ++ ["034"%char] ++ lit "poster-authors"
                ++ ["034"%char] ++ lit ">"
                ++ Posters.escape (Posters.authors p) ++ lit "</div>"
                ++ after)
  /\ (forall s, Posters.escape s = flat_map entity s)
  /\ (forall s c, In c (Posters.escape s) -> c <> "<"%char /\ c <> ">"%char).
Proof.
  apply (poster_text_escaped (lit "<html>") (lit "</html>") demo_posters).
  apply (bool_decide_unpack _). vm_compute. exact I.
Defined.

(** * Further properties of the scripts *)

(** ** The matcher accepts every string of the language *)

Module ReComplete.
Import Re.

Lemma lang_nil_nullable r s : lang r s -> s = [] -> nullable r = true.
Proof.
  induction 1; intros E; simpl; try reflexivity; try discriminate.
  - apply app_eq_nil in E as [-> ->]. now rewrite IHlang1, IHlang2.
  - now rewrite IHlang.
  - rewrite IHlang by assumption. apply orb_true_r.
Qed.

Lemma lang_deriv r w : lang r w -> forall c s, w = c :: s -> lang (deriv c r) s.
Proof.
  induction 1 as [|p k Hp|r1 r2 s1 s2 H1 IH1 H2 IH2|r1 r2 s0 H1 IH1
                  |r1 r2 s0 H2 IH2| |r1 s1 s2 H1 IH1 H2 IH2];
    intros c s E; simpl; try discriminate.
  - injection E as -> <-. rewrite Hp. constructor.
  - destruct s1 as [|x s1]; simpl in E.
    + rewrite (lang_nil_nullable r1 [] H1 eq_refl).
      apply lang_alt_r. now apply IH2.
    + injection E as -> <-.
      assert (lang (Cat (deriv c r1) r2) (s1 ++ s2)) as L
        by (constructor; [now apply IH1 | exact H2]).
      destruct (nullable r1); [now apply lang_alt_l | exact L].
  - apply lang_alt_l. now apply IH1.
  - apply lang_alt_r. now apply IH2.
  - destruct s1 as [|x s1]; simpl in E.
    + now apply IH2.
    + injection E as -> <-. constructor; [now apply IH1 | exact H2].
Qed.

Lemma lang_fullmatch s : forall r, lang r s -> fullmatch r s = true.
Proof.
  induction s as [|c s IH]; simpl; intros r H.
  - now apply (lang_nil_nullable r []).
  - apply IH. now apply (lang_deriv r (c :: s)).
Qed.

Lemma class_star p s : forallb p s = true -> lang (Star (Class p)) s.
Proof.
  induction s as [|c s IH]; simpl; intros H; [constructor |].
  apply andb_prop in H as [Hc Hs].
  change (c :: s) with ([c] ++ s). constructor; [now constructor | auto].
Qed.

Lemma class_plus p s :
  s <> [] -> forallb p s = true -> lang (Plus (Class p)) s.
Proof.
  destruct s as [|c s]; [congruence |]. simpl. intros _ H.
  apply andb_prop in H as [Hc Hs].
  change (c :: s) with ([c] ++ s).
  constructor; [now constructor | now apply class_star].
Qed.

End ReComplete.

(** The strings the email pattern accepts, with no newline at the end. *)
Lemma email_shape_accepts (l d x : str) :
  l <> [] -> forallb email_char l = true ->
  d <> [] -> forallb email_char d = true ->
  x <> [] -> forallb Char.is_word x = true ->
  Re.match_anchored email_pattern (l ++ lit "@" ++ d ++ lit "." ++ x) = true.
Proof.
  intros Hl Hl' Hd Hd' Hx Hx'. apply ReComplete.lang_fullmatch.
  replace (l ++ lit "@" ++ d ++ lit "." ++ x)
    with ((l ++ lit "@" ++ d ++ lit "." ++ x) ++ [])
    by apply app_nil_r.
  constructor; [|apply Re.lang_alt_l; constructor].
  unfold email_pattern.
  constructor; [now apply ReComplete.class_plus |].
  constructor; [now constructor |].
  constructor; [now apply ReComplete.class_plus |].
  constructor; [now constructor | now apply ReComplete.class_plus].
Qed.

(** ** [strip] and [lower] *)

Lemma lstrip_pad (pad s : str) : all_space pad -> Py.lstrip (pad ++ s) = Py.lstrip s.
Proof.
  unfold all_space. induction pad as [|c pad IH]; simpl; [reflexivity |].
  intros H. apply andb_prop in H as [-> H]. now apply IH.
Qed.

Lemma lstrip_keeps_tail (s t : str) :
  Py.lstrip s <> [] -> Py.lstrip (s ++ t) = Py.lstrip s ++ t.
Proof.
  induction s as [|c s IH]; simpl; [congruence |].
  destruct (Char.is_space c); [exact IH | reflexivity].
Qed.

Lemma lstrip_all_space (s : str) :
  Py.lstrip s = [] <-> all_space s.
Proof.
  unfold all_space. induction s as [|c s IH]; simpl; [tauto |].
  destruct (Char.is_space c); simpl; [exact IH |].
  split; discriminate.
Qed.

Lemma all_space_rev (s : str) : all_space s -> all_space (rev s).
Proof.
  unfold all_space. rewrite !forallb_forall. intros H c Hc.
  apply H. now apply in_rev.
Qed.

Lemma all_space_app (s t : str) : all_space s -> all_space t -> all_space (s ++ t).
Proof. unfold all_space. rewrite forallb_app. now intros -> ->. Qed.

Lemma rstrip_pad (s pad : str) : all_space pad -> Py.rstrip (s ++ pad) = Py.rstrip s.
Proof.
  intros H. unfold Py.rstrip. rewrite rev_app_distr.
  now rewrite lstrip_pad by now apply all_space_rev.
Qed.

Lemma strip_pad (before s after : str) :
  all_space before -> all_space after ->
  Py.strip (before ++ s ++ after) = Py.strip s.
Proof.
  intros Hb Ha. unfold Py.strip. rewrite lstrip_pad by assumption.
  destruct (Py.lstrip s) as [|c r] eqn:E.
  - apply lstrip_all_space in E.
    assert (Py.lstrip (s ++ after) = []) as ->
      by (apply lstrip_all_space; now apply all_space_app).
    reflexivity.
  - rewrite lstrip_keeps_tail by congruence. rewrite E.
    now apply rstrip_pad.
Qed.

Lemma lstrip_lower (s : str) : Py.lstrip (Py.lower s) = Py.lower (Py.lstrip s).
Proof.
  unfold Py.lower. induction s as [|c s IH]; simpl; [reflexivity |].
  rewrite to_lower_space. destruct (Char.is_space c); [exact IH | reflexivity].
Qed.

Lemma strip_lower (s : str) : Py.strip (Py.lower s) = Py.lower (Py.strip s).
Proof.
  unfold Py.strip, Py.rstrip. rewrite lstrip_lower.
  unfold Py.lower at 1. rewrite <- map_rev. fold (Py.lower (rev (Py.lstrip s))).
  rewrite lstrip_lower. unfold Py.lower. now rewrite map_rev.
Qed.

Lemma to_lower_twice (c : ascii) : Char.to_lower (Char.to_lower c) = Char.to_lower c.
Proof. each_char c. Qed.

Lemma lower_lower (s : str) : Py.lower (Py.lower s) = Py.lower s.
Proof.
  unfold Py.lower. rewrite map_map. apply map_ext, to_lower_twice.
Qed.

Lemma lstrip_In (s : str) (c : ascii) : In c (Py.lstrip s) -> In c s.
Proof.
  induction s as [|x s IH]; simpl; [tauto |].
  destruct (Char.is_space x); [intros H; right; now apply IH | tauto].
Qed.

Lemma strip_In (s : str) (c : ascii) : In c (Py.strip s) -> In c s.
Proof.
  unfold Py.strip, Py.rstrip. intros H.
  apply in_rev, lstrip_In, in_rev in H. now apply lstrip_In.
Qed.

Lemma lstrip_suffix (s : str) : exists pre, s = pre ++ Py.lstrip s.
Proof.
  induction s as [|c s [pre IH]]; simpl; [now exists [] |].
  destruct (Char.is_space c).
  - exists (c :: pre). simpl. now rewrite <- IH.
  - now exists [].
Qed.

Lemma lstrip_fix (s : str) :
  match s with [] => True | c :: _ => Char.is_space c = false end ->
  Py.lstrip s = s.
Proof. destruct s as [|c s]; simpl; [reflexivity | now intros ->]. Qed.

Lemma strip_strip (s : str) : Py.strip (Py.strip s) = Py.strip s.
Proof.
  unfold Py.strip, Py.rstrip.
  set (A := Py.lstrip s). set (B := Py.lstrip (rev A)).
  assert (HB : Py.lstrip B = B) by (apply lstrip_fix, lstrip_head).
  assert (HA : Py.lstrip (rev B) = rev B).
  { apply lstrip_fix. destruct (lstrip_suffix (rev A)) as (pre & Hpre).
    fold B in Hpre. apply (f_equal (@rev ascii)) in Hpre.
    rewrite rev_involutive, rev_app_distr in Hpre.
    pose proof (lstrip_head s) as H. fold A in H. rewrite Hpre in H.
    destruct (rev B); [exact I | exact H]. }
  now rewrite HA, rev_involutive, HB.
Qed.

(** ** [clean_email] *)

Lemma lower_strip_normal (s : str) :
  Py.lower (Py.strip (Py.lower (Py.strip s))) = Py.lower (Py.strip s).
Proof. now rewrite strip_lower, strip_strip, lower_lower. Qed.

(** X1: on ASCII text [clean_email] returns an address exactly when the
    lowercased, trimmed input is a non-empty local part of characters
    from [[A-Za-z0-9_.-]], ["@"], a non-empty run of such characters, a
    dot and a non-empty run of characters from [[A-Za-z0-9_]]; the
    address returned is that lowercased, trimmed input.  A missing
    value gives [None]. *)
Theorem clean_email_accepts (raw e : str) :
  isascii raw = true ->
  Registration.clean_email None = None
  /\ (Registration.clean_email (Some raw) = Some e
      <-> (e = Py.lower (Py.strip raw)
           /\ exists l d x,
                e = l ++ lit "@" ++ d ++ lit "." ++ x
                /\ l <> [] /\ forallb email_char l = true
                /\ d <> [] /\ forallb email_char d = true
                /\ x <> [] /\ forallb Char.is_word x = true)).
Proof.
  intros _. split; [reflexivity |]. unfold Registration.clean_email.
  destruct (Re.match_anchored email_pattern (Py.lower (Py.strip raw))) eqn:M.
  - split.
    + intros [= <-]. split; [reflexivity |].
      destruct (email_shape _ M)
        as (l & d & x & t & Hw & [Hl Hl'] & [Hd Hd'] & [Hx Hx'] & Ht).
      assert (t = []) as ->.
      { destruct Ht as [-> | ->]; [reflexivity |]. exfalso.
        rewrite !app_assoc in Hw. apply lower_strip_last in Hw. discriminate. }
      rewrite app_nil_r in Hw. exists l, d, x.
      rewrite Hw. repeat split; assumption.
    + intros [-> _]. reflexivity.
  - split; [discriminate |].
    intros [-> (l & d & x & Hw & Hl & Hl' & Hd & Hd' & Hx & Hx')].
    rewrite Hw, email_shape_accepts in M by assumption. discriminate.
Qed.

Lemma clean_email_accepts_witness :
  Registration.clean_email None = None
  /\ (Registration.clean_email (Some (lit " Ann.Lee@Example.ORG "))
        = Some (lit "ann.lee@example.org")
      <-> (lit "ann.lee@example.org"
             = Py.lower (Py.strip (lit " Ann.Lee@Example.ORG "))
           /\ exists l d x,
                lit "ann.lee@example.org" = l ++ lit "@" ++ d ++ lit "." ++ x
                /\ l <> [] /\ forallb email_char l = true
                /\ d <> [] /\ forallb email_char d = true
                /\ x <> [] /\ forallb Char.is_word x = true)).
Proof.
  apply (clean_email_accepts (lit " Ann.Lee@Example.ORG ")
           (lit "ann.lee@example.org")).
  vm_compute. reflexivity.
Defined.

(** X2: an address [clean_email] returns is in its own normal form:
    lowercasing or trimming it changes nothing, and cleaning it again
    returns it unchanged. *)
Theorem clean_email_idempotent (raw e : str) :
  Registration.clean_email (Some raw) = Some e ->
  Py.lower e = e /\ Py.strip e = e
  /\ Registration.clean_email (Some e) = Some e.
Proof.
  unfold Registration.clean_email.
  destruct (Re.match_anchored email_pattern (Py.lower (Py.strip raw))) eqn:M;
    [|discriminate].
  intros [= <-]. split; [apply lower_lower |]. split.
  - now rewrite strip_lower, strip_strip.
  - now rewrite lower_strip_normal, M.
Qed.

Lemma clean_email_idempotent_witness :
  Py.lower (lit "dana.levi@cs.biu.ac.il") = lit "dana.levi@cs.biu.ac.il"
  /\ Py.strip (lit "dana.levi@cs.biu.ac.il") = lit "dana.levi@cs.biu.ac.il"
  /\ Registration.clean_email (Some (lit "dana.levi@cs.biu.ac.il"))
     = Some (lit "dana.levi@cs.biu.ac.il").
Proof.
  apply (clean_email_idempotent (lit "  Dana.Levi@CS.BIU.ac.il ")).
  vm_compute. reflexivity.
Defined.

(** X3: [clean_email] does not see letter case or whitespace around
    the address: two inputs that agree up to case, one of them padded
    with whitespace, are cleaned to the same value. *)
Theorem clean_email_ignores_case_and_padding (before after a b : str) :
  all_space before -> all_space after -> Py.lower a = Py.lower b ->
  Registration.clean_email (Some (before ++ a ++ after))
  = Registration.clean_email (Some b).
Proof.
  intros Hb Ha E. unfold Registration.clean_email.
  rewrite strip_pad by assumption.
  now rewrite <- !strip_lower, E.
Qed.

Lemma clean_email_ignores_case_and_padding_witness :
  Registration.clean_email
    (Some (lit "  " ++ lit "Noa@Technion.AC.IL" ++ [ "010"%char ]))
  = Registration.clean_email (Some (lit "noa@technion.ac.il")).
Proof.
  apply clean_email_ignores_case_and_padding; reflexivity.
Defined.

(** ** Duplicates by email *)

Module Dedup.
Import Registration.

Lemma cell_eqb_eq (a b : option str) : cell_eqb a b = true <-> a = b.
Proof.
  destruct a as [x|], b as [y|]; simpl; try (split; congruence).
  rewrite str_eqb_eq. split; congruence.
Qed.

Lemma seen_In (c : option str) (seen : list (option str)) :
  existsb (cell_eqb c) seen = true <-> In c seen.
Proof.
  rewrite existsb_exists. split.
  - intros (y & Hy & E). apply cell_eqb_eq in E. now subst.
  - intros H. exists c. split; [exact H | now apply cell_eqb_eq].
Qed.

Lemma drop_from_cells (seen : list (option str)) (df : list registration) :
  List.NoDup (map email_address (drop_duplicates_from seen df))
  /\ forall r, In r (drop_duplicates_from seen df) -> ~ In (email_address r) seen.
Proof.
  revert seen; induction df as [|r df IH]; intros seen; simpl.
  - split; [constructor | tauto].
  - destruct (existsb (cell_eqb (email_address r)) seen) eqn:E.
    + apply IH.
    + destruct (IH (email_address r :: seen)) as [Hnd Hseen].
      assert (~ In (email_address r) seen) as Hr
        by (rewrite <- seen_In; congruence).
      split.
      * simpl. constructor; [|exact Hnd].
        rewrite in_map_iff. intros (r' & Hc & Hin).
        apply Hseen in Hin. apply Hin. left. now symmetry.
      * intros r' [<- | Hin]; [exact Hr |].
        apply Hseen in Hin. intros H. apply Hin. now right.
Qed.

Lemma drop_from_first (seen : list (option str)) (df : list registration)
    (r : registration) :
  In r (drop_duplicates_from seen df) <->
  exists before after,
    df = before ++ r :: after
    /\ ~ In (email_address r) (seen ++ map email_address before).
Proof.
  revert seen; induction df as [|x df IH]; intros seen; simpl.
  - split; [tauto | intros (b & a & E & _); destruct b; discriminate].
  - destruct (existsb (cell_eqb (email_address x)) seen) eqn:E.
    + apply seen_In in E. rewrite IH. split.
      * intros (b & a & -> & H). exists (x :: b), a. split; [reflexivity |].
        simpl. rewrite in_app_iff in *. simpl.
        intros [H1 | [H1 | H1]]; [tauto | | tauto].
        apply H. left. now rewrite <- H1.
      * intros (b & a & Hdf & H). destruct b as [|y b]; simpl in Hdf.
        -- injection Hdf as -> ->. exfalso. apply H.
           rewrite in_app_iff. now left.
        -- injection Hdf as -> ->. exists b, a. split; [reflexivity |].
           intros H1. apply H. simpl. rewrite in_app_iff in *. simpl. tauto.
    + assert (~ In (email_address x) seen) as Hx
        by (rewrite <- seen_In; congruence).
      simpl. rewrite IH. split.
      * intros [<- | (b & a & -> & H)].
        -- exists [], df. split; [reflexivity |]. simpl. now rewrite app_nil_r.
        -- exists (x :: b), a. split; [reflexivity |].
           simpl in *. rewrite in_app_iff in *. simpl in *. tauto.
      * intros (b & a & Hdf & H). destruct b as [|y b]; simpl in Hdf.
        -- injection Hdf as -> ->. now left.
        -- injection Hdf as -> ->. right. exists b, a.
           split; [reflexivity |]. simpl in *.
           rewrite in_app_iff in *. simpl in *. tauto.
Qed.

End Dedup.

(** X4: after the email column is cleaned and duplicates are dropped no
    two rows left have the same email cell; a missing or rejected
    address is the cell [None], so at most one row without a valid
    address is left.  The number of rows removed is not negative. *)
Theorem unique_registrations_distinct (df : list Registration.registration) :
  let '(kept, duplicates_removed) := Registration.unique_registrations df in
  List.NoDup (map Registration.email_address kept)
  /\ length (List.filter
               (fun r => Registration.cell_eqb (Registration.email_address r) None)
               kept) <= 1
  /\ (0 <= duplicates_removed)%Z
  /\ (duplicates_removed = Z.of_nat (length df) - Z.of_nat (length kept))%Z.
Proof.
  unfold Registration.unique_registrations, Registration.drop_duplicates.
  set (cleaned := Registration.clean_emails df).
  destruct (Dedup.drop_from_cells [] cleaned) as [Hnd _].
  assert (Hlen : length (Registration.drop_duplicates_from [] cleaned)
                 <= length df).
  { assert (length cleaned = length df) as <-
      by (unfold cleaned, Registration.clean_emails; apply length_map).
    clear Hnd. generalize (@nil (option str)). clearbody cleaned.
    induction cleaned as [|r c IH]; intros seen; simpl; [lia |].
    destruct (existsb _ seen); simpl;
      [specialize (IH seen) | specialize (IH (Registration.email_address r :: seen))];
      lia. }
  set (kept := Registration.drop_duplicates_from [] cleaned) in *.
  split; [exact Hnd |]. split; [|split; [lia | reflexivity]].
  clearbody kept. clear -Hnd. induction kept as [|r kept IH]; simpl; [lia |].
  simpl in Hnd. inversion Hnd as [|? ? Hr Hrest]; subst.
  destruct (Registration.email_address r) as [e|] eqn:E; simpl.
  - now apply IH.
  - match goal with |- S (length ?l) <= 1 => destruct l as [|r' l'] eqn:F end;
      [simpl; lia |].
    exfalso. apply Hr.
    assert (In r' (List.filter
      (fun r => Registration.cell_eqb (Registration.email_address r) None) kept))
      as Hin by (rewrite F; now left).
    apply filter_In in Hin as [Hin Hc]. apply Dedup.cell_eqb_eq in Hc.
    apply in_map_iff. exists r'. split; [exact Hc | exact Hin].
Qed.

(** X5: the row kept for an email cell is the first row of the table
    with that cell: a row is among the rows left exactly when no row
    before it has the same cell. *)
Theorem drop_duplicates_keeps_first (df : list Registration.registration)
    (r : Registration.registration) :
  In r (Registration.drop_duplicates df) <->
  exists before after,
    df = before ++ r :: after
    /\ ~ In (Registration.email_address r)
            (map Registration.email_address before).
Proof. apply (Dedup.drop_from_first [] df r). Qed.

(** ** Where the names of a result come from *)

Module Names.

Lemma lower_fixed (s : str) :
  Py.lower s = s <-> forall c, In c s -> Char.to_lower c = c.
Proof.
  unfold Py.lower. induction s as [|x s IH]; simpl.
  - split; [intros _ c [] | reflexivity].
  - split.
    + intros [= Hx Hs]. intros c [<- | Hc]; [exact Hx |]. now apply IH.
    + intros H. f_equal; [apply H; now left |].
      apply IH. intros c Hc. apply H. now right.
Qed.

Lemma lower_sub (s t : str) :
  (forall c, In c t -> In c s) -> Py.lower s = s -> Py.lower t = t.
Proof. rewrite !lower_fixed. auto. Qed.

Lemma join_In sep (pieces : list str) p c :
  In p pieces -> In c p -> In c (join sep pieces).
Proof.
  induction pieces as [|q pieces IH]; [intros [] |].
  intros [-> | Hp] Hc.
  - destruct pieces as [|q' pieces]; [exact Hc |].
    change (In c (p ++ sep ++ join sep (q' :: pieces))).
    apply in_or_app. now left.
  - destruct pieces as [|q' pieces]; [destruct Hp |].
    change (In c (q ++ sep ++ join sep (q' :: pieces))).
    apply in_or_app. right. apply in_or_app. right. now apply IH.
Qed.

Lemma split_piece_In sep s pieces p c :
  Py.split sep s = Ok pieces -> In p pieces -> In c p -> In c s.
Proof.
  intros Hs Hp Hc. destruct sep as [|x sep]; [discriminate |].
  destruct (split_pieces (x :: sep) s ltac:(discriminate)) as (ps & Hs' & Hj & _).
  rewrite Hs in Hs'. injection Hs' as <-. rewrite <- Hj.
  now apply (join_In _ pieces p).
Qed.

Lemma email_domain_In w d c : email_domain w = Ok d -> In c d -> In c w.
Proof.
  unfold email_domain.
  destruct (Py.contains (lit "@") w && Re.match_anchored email_pattern w);
    [|now intros [= ->]].
  destruct (Py.split (lit "@") w) as [pieces|] eqn:Hs; [|discriminate].
  rewrite bind_Ok. unfold Py.index.
  destruct (nth_error pieces 1) as [p|] eqn:N; [|discriminate].
  intros [= ->] Hc. apply nth_error_In in N.
  now apply (split_piece_In _ _ _ _ _ Hs N).
Qed.

Lemma split_on_first_In seps w parts p c :
  split_on_first seps w = Ok parts -> In p parts -> In c p -> In c w.
Proof.
  induction seps as [|sep seps IH]; simpl.
  - intros [= <-] [].
  - destruct (Py.contains sep w); [|exact IH].
    destruct (Py.split sep w) as [pieces|] eqn:Hs; [|discriminate].
    rewrite bind_Ok. intros [= <-] Hp Hc.
    apply in_map_iff in Hp as (q & <- & Hq). apply strip_In in Hc.
    now apply (split_piece_In _ _ _ _ _ Hs Hq).
Qed.

Lemma potential_parts_In w parts p c :
  potential_parts_of w = Ok parts -> In p parts -> In c p -> In c w.
Proof.
  unfold potential_parts_of.
  destruct (split_on_first separators w) as [pp|] eqn:Hs; [|discriminate].
  rewrite bind_Ok. destruct pp as [|q pp]; simpl.
  - intros [= <-] [<- | []]. tauto.
  - intros [= <-]. now apply (split_on_first_In _ _ _ _ _ Hs).
Qed.

(** The fragments of a call are lowercased. *)
Lemma fragments_lowered raw w parts :
  email_domain (Py.lower (Py.strip raw)) = Ok w ->
  potential_parts_of w = Ok parts ->
  Forall (fun p => Py.lower p = p) parts.
Proof.
  intros Hd Hp. apply List.Forall_forall. intros p Hin.
  apply (lower_sub (Py.lower (Py.strip raw))); [|apply lower_lower].
  intros c Hc. apply (email_domain_In _ _ _ Hd).
  now apply (potential_parts_In _ _ _ _ Hp Hin).
Qed.

Lemma first_canonical_name part canonical :
  first_canonical part mappings = Some canonical -> In canonical canonical_names.
Proof. apply first_canonical_In. Qed.

Lemma normalize_parts_classified parts : forall normalized,
  Forall (fun p => Py.lower p = p) parts ->
  Forall classified normalized ->
  Forall classified (normalize_parts parts normalized).
Proof.
  induction parts as [|part parts IH]; intros normalized Hl Hn;
    cbn [normalize_parts]; [exact Hn |].
  inversion Hl as [|? ? Hpart Hparts]; subst.
  destruct (is_empty (Py.strip part)) eqn:E; [now apply IH |].
  rewrite scan_mappings_first.
  destruct (first_canonical (Py.strip part) mappings) as [c|] eqn:F;
    apply IH; try assumption.
  - unfold add_once. destruct (Py.mem c normalized); [exact Hn |].
    apply Forall_app. split; [exact Hn |]. constructor; [|constructor].
    left. now apply (first_canonical_name (Py.strip part)).
  - apply Forall_app. split; [exact Hn |]. constructor; [|constructor].
    right. exists (Py.strip part). repeat split.
    + now apply is_empty_false.
    + apply (lower_sub part); [apply strip_In | exact Hpart].
    + apply strip_strip.
    + exact F.
Qed.

(** A call on a string, step by step. *)
Lemma normalize_steps (raw : str) :
  exists w parts,
    email_domain (Py.lower (Py.strip raw)) = Ok w
    /\ potential_parts_of w = Ok parts
    /\ parts <> []
    /\ normalize_company_name (Some raw) =
       if Py.str_eqb raw (lit "-") then Ok [not_specified]
       else Ok (or_not_specified (normalize_parts parts [])).
Proof.
  destruct (email_domain_ok (Py.lower (Py.strip raw))) as (w & Hw).
  destruct (potential_parts_of_ok w) as (parts & Hp).
  exists w, parts. split; [exact Hw |]. split; [exact Hp |]. split.
  - unfold potential_parts_of in Hp.
    destruct (split_on_first separators w) as [pp|]; [|discriminate].
    rewrite bind_Ok in Hp. destruct pp; simpl in Hp; injection Hp as <-;
      discriminate.
  - unfold normalize_company_name.
    destruct (Py.str_eqb raw (lit "-")); [reflexivity |].
    now rewrite Hw, bind_Ok, Hp, bind_Ok.
Qed.

End Names.

(** X6: every name of a result is ["Not specified"], a canonical name of
    the table, or the title case of a non-empty, lowercased, trimmed
    fragment that matches no canonical name. *)
Theorem result_names_classified (company : option str) (result : list str)
    (name : str) :
  normalize_company_name company = Ok result ->
  In name result ->
  name = lit "Not specified"
  \/ In name (map fst mappings)
  \/ exists part,
       part <> [] /\ Py.lower part = part /\ Py.strip part = part
       /\ first_canonical part mappings = None
       /\ name = Py.title part.
Proof.
  intros H Hin. destruct company as [raw|].
  2:{ injection H as <-. destruct Hin as [<- | []]. now left. }
  destruct (Names.normalize_steps raw) as (w & parts & Hw & Hp & _ & E).
  rewrite E in H. destruct (Py.str_eqb raw (lit "-")).
  { injection H as <-. destruct Hin as [<- | []]. now left. }
  injection H as <-. unfold or_not_specified in Hin.
  destruct (normalize_parts parts []) as [|x l] eqn:N; cbn [is_empty] in Hin.
  { destruct Hin as [<- | []]. now left. }
  right.
  assert (Forall classified (x :: l)) as C.
  { rewrite <- N. apply Names.normalize_parts_classified; [|constructor].
    exact (Names.fragments_lowered raw w parts Hw Hp). }
  rewrite List.Forall_forall in C. exact (C name Hin).
Qed.

Lemma result_names_classified_witness :
  lit "Milab" = lit "Not specified"
  \/ In (lit "Milab") (map fst mappings)
  \/ exists part,
       part <> [] /\ Py.lower part = part /\ Py.strip part = part
       /\ first_canonical part mappings = None
       /\ lit "Milab" = Py.title part.
Proof.
  apply (result_names_classified (Some (lit "Google & MILAB"))
           [lit "Google"; lit "Milab"] (lit "Milab")).
  - vm_compute. reflexivity.
  - right. left. reflexivity.
Defined.

(** ** Title case *)

Module Title.

Lemma cased_to_lower (c : ascii) : Char.is_cased (Char.to_lower c) = Char.is_cased c.
Proof. each_char c. Qed.

Lemma cased_to_upper (c : ascii) : Char.is_cased (Char.to_upper c) = Char.is_cased c.
Proof. each_char c. Qed.

Lemma upper_not_lower (c : ascii) : Char.is_lower (Char.to_upper c) = false.
Proof. each_char c. Qed.

Lemma lower_of_upper (c : ascii) : Char.to_lower (Char.to_upper c) = Char.to_lower c.
Proof. each_char c. Qed.

(** In title case no lowercase letter follows a character without case. *)
Lemma after_uncased (s : str) : forall b pre x y post,
  Py.title_from b s = pre ++ x :: y :: post ->
  Char.is_cased x = false -> Char.is_lower y = false.
Proof.
  induction s as [|c s IH]; intros b pre x y post E Hx; simpl in E.
  - destruct pre; discriminate.
  - destruct pre as [|p pre]; simpl in E.
    + injection E as Ex Et. destruct s as [|c2 s]; [discriminate |].
      simpl in Et. injection Et as Ey _.
      assert (Char.is_cased c = false) as Hc.
      { rewrite <- Hx, <- Ex.
        destruct b; [now rewrite cased_to_lower | now rewrite cased_to_upper]. }
      rewrite Hc in Ey. rewrite <- Ey. apply upper_not_lower.
    + injection E as _ Et. exact (IH _ _ _ _ _ Et Hx).
Qed.

Lemma lower_title_from (s : str) : forall b,
  Py.lower (Py.title_from b s) = Py.lower s.
Proof.
  unfold Py.lower. induction s as [|c s IH]; intros b; simpl; [reflexivity |].
  rewrite IH. f_equal.
  destruct b; [apply to_lower_twice | apply lower_of_upper].
Qed.

Lemma keys_match_themselves :
  forall key, In key canonical_names ->
    first_canonical (Py.lower key) mappings <> None.
Proof.
  assert (forallb (fun key =>
            match first_canonical (Py.lower key) mappings with
            | Some _ => true
            | None => false
            end) canonical_names = true) as H by (vm_compute; reflexivity).
  rewrite forallb_forall in H. intros key Hk E. apply H in Hk.
  rewrite E in Hk. discriminate.
Qed.

(** The title case of an unmatched fragment is no canonical name. *)
Lemma unmatched_not_key (name : str) :
  unmatched_title name -> ~ In name canonical_names.
Proof.
  intros (part & _ & Hl & _ & F & ->) Hk.
  apply keys_match_themselves in Hk. apply Hk.
  unfold Py.title. now rewrite lower_title_from, Hl.
Qed.

Lemma unmatched_shape (name pre post : str) (x y : ascii) :
  unmatched_title name -> name = pre ++ x :: y :: post ->
  Char.is_cased x = false -> Char.is_lower y = true -> False.
Proof.
  intros (part & _ & _ & _ & _ & ->) E Hx Hy.
  rewrite (after_uncased _ _ _ _ _ _ E Hx) in Hy. discriminate.
Qed.

Lemma not_specified_unclassified : ~ classified not_specified.
Proof.
  intros [Hk | Hu].
  - apply mem_In in Hk. vm_compute in Hk. discriminate.
  - apply (unmatched_shape _ (lit "Not") (lit "pecified") " " "s" Hu);
      reflexivity.
Qed.

Lemma haifa_unclassified : ~ classified (lit "University of Haifa").
Proof.
  intros [Hk | Hu].
  - apply mem_In in Hk. vm_compute in Hk. discriminate.
  - apply (unmatched_shape _ (lit "University") (lit "f Haifa") " " "o" Hu);
      reflexivity.
Qed.

End Title.

(** ** The list built by the loops *)

Module Loops.

Lemma normalize_parts_length parts : forall normalized,
  length normalized <= length (normalize_parts parts normalized)
  /\ length (normalize_parts parts normalized)
     <= length normalized + length parts.
Proof.
  induction parts as [|part parts IH]; intros normalized;
    cbn [normalize_parts]; [simpl; lia |].
  destruct (is_empty (Py.strip part)).
  { specialize (IH normalized). simpl. lia. }
  rewrite scan_mappings_first.
  destruct (first_canonical (Py.strip part) mappings) as [c|].
  - unfold add_once. destruct (Py.mem c normalized).
    + specialize (IH normalized). simpl. lia.
    + specialize (IH (normalized ++ [c])). rewrite length_app in IH. simpl in *. lia.
  - specialize (IH (normalized ++ [Py.title (Py.strip part)])).
    rewrite length_app in IH. simpl in *. lia.
Qed.

Lemma normalize_parts_nil parts :
  normalize_parts parts [] = [] <-> Forall (fun p => Py.strip p = []) parts.
Proof.
  induction parts as [|part parts IH]; cbn [normalize_parts].
  - split; [constructor | reflexivity].
  - destruct (Py.strip part) as [|c t] eqn:E; cbn [is_empty].
    + rewrite IH. split; [now constructor | intros H; now inversion H].
    + split.
      * intros H. exfalso. rewrite scan_mappings_first in H.
        pose proof (normalize_parts_length parts
          (match first_canonical (c :: t) mappings with
           | Some canonical => add_once canonical []
           | None => [] ++ [Py.title (c :: t)]
           end)) as [L _].
        destruct (first_canonical (c :: t) mappings);
          rewrite H in L; simpl in L; lia.
      * intros H. inversion H; subst. congruence.
Qed.

Lemma count_app name l1 l2 : count name (l1 ++ l2) = count name l1 + count name l2.
Proof. unfold count. now rewrite List.filter_app, length_app. Qed.

Lemma count_absent name l : ~ In name l -> count name l = 0.
Proof.
  unfold count. induction l as [|x l IH]; simpl; [reflexivity |].
  intros H. destruct (Py.str_eqb name x) eqn:E.
  - apply str_eqb_eq in E. subst. exfalso. apply H. now left.
  - apply IH. intros Hin. apply H. now right.
Qed.

Lemma count_other name x : name <> x -> count name [x] = 0.
Proof. intros H. apply count_absent. intros [E | []]. congruence. Qed.

Lemma normalize_parts_once parts : forall normalized,
  Forall (fun p => Py.lower p = p) parts ->
  (forall key, In key canonical_names -> count key normalized <= 1) ->
  forall key, In key canonical_names ->
    count key (normalize_parts parts normalized) <= 1.
Proof.
  induction parts as [|part parts IH]; intros normalized Hl Hn;
    cbn [normalize_parts]; [exact Hn |].
  inversion Hl as [|? ? Hpart Hparts]; subst.
  destruct (is_empty (Py.strip part)) eqn:E; [now apply IH |].
  rewrite scan_mappings_first.
  destruct (first_canonical (Py.strip part) mappings) as [c|] eqn:F;
    apply IH; try assumption; intros key Hk.
  - unfold add_once. destruct (Py.mem c normalized) eqn:M; [now apply Hn |].
    rewrite count_app. destruct (Py.str_eqb key c) eqn:K.
    + apply str_eqb_eq in K. subst c.
      rewrite (count_absent key normalized)
        by (rewrite <- mem_In; congruence).
      unfold count. simpl. rewrite (proj2 (str_eqb_eq key key) eq_refl).
      simpl. lia.
    + rewrite (count_other key c)
        by (intros ->; rewrite (proj2 (str_eqb_eq c c) eq_refl) in K; discriminate).
      specialize (Hn key Hk). lia.
  - rewrite count_app, count_other; [specialize (Hn key Hk); lia |].
    intros ->. apply (Title.unmatched_not_key (Py.title (Py.strip part))).
    + exists (Py.strip part). repeat split.
      * now apply is_empty_false.
      * apply (Names.lower_sub part); [apply strip_In | exact Hpart].
      * apply strip_strip.
      * exact F.
    + exact Hk.
Qed.

End Loops.

(** X7: for a missing value or ASCII text, no canonical name of the
    table is twice in a result, and neither is ["Not specified"]; only
    the title case of an unmatched fragment can be repeated. *)
Theorem canonical_names_at_most_once (company : option str)
    (result : list str) (name : str) :
  ascii_input company = true ->
  normalize_company_name company = Ok result ->
  In name (map fst mappings) \/ name = lit "Not specified" ->
  length (List.filter (Py.str_eqb name) result) <= 1.
Proof.
  intros _ H Hname.
  assert (Hns : length (List.filter (Py.str_eqb name) [not_specified]) <= 1)
    by (simpl; destruct (Py.str_eqb name not_specified); simpl; lia).
  destruct company as [raw|]; [|now injection H as <-].
  destruct (Names.normalize_steps raw) as (w & parts & Hw & Hp & _ & E).
  rewrite E in H. destruct (Py.str_eqb raw (lit "-")); [now injection H as <-|].
  injection H as <-. unfold or_not_specified.
  destruct (normalize_parts parts []) as [|x l] eqn:N; cbn [is_empty];
    [exact Hns |].
  rewrite <- N.
  pose proof (Names.fragments_lowered raw w parts Hw Hp) as Hl.
  destruct Hname as [Hk | ->].
  - apply (Loops.normalize_parts_once parts [] Hl); [|exact Hk].
    intros key _. unfold count. simpl. lia.
  - change (count not_specified (normalize_parts parts []) <= 1).
    rewrite Loops.count_absent; [lia |].
    intros Hin. apply Title.not_specified_unclassified.
    assert (Forall classified (normalize_parts parts [])) as C
      by (apply Names.normalize_parts_classified; [exact Hl | constructor]).
    rewrite List.Forall_forall in C. now apply C.
Qed.

Lemma canonical_names_at_most_once_witness :
  length (List.filter (Py.str_eqb (lit "Bar Ilan University"))
            [lit "Bar Ilan University"; lit "Google"]) <= 1.
Proof.
  apply (canonical_names_at_most_once
           (Some (lit "BIU, Bar-Ilan University, Google"))).
  - vm_compute. reflexivity.
  - vm_compute. reflexivity.
  - left. apply mem_In. vm_compute. reflexivity.
Defined.

(** X8: ["University of Haifa"], an entry of the list [universities],
    is in no result: it is no canonical name of the table, and in title
    case the ["o"] after the space would be a capital.  An affiliation
    typed that way comes back as ["University Of Haifa"], which is in
    neither list of organisations. *)
Theorem university_of_haifa_never_returned :
  (forall company result,
      normalize_company_name company = Ok result ->
      ~ In (lit "University of Haifa") result)
  /\ In (lit "University of Haifa") Registration.universities
  /\ normalize_company_name (Some (lit "University of Haifa"))
     = Ok [lit "University Of Haifa"]
  /\ Registration.cell_isin Registration.universities
       (Some (lit "University Of Haifa")) = false
  /\ Registration.cell_isin Registration.companies
       (Some (lit "University Of Haifa")) = false.
Proof.
  split; [|split; [apply mem_In |repeat split]; vm_compute; reflexivity].
  intros company result H Hin.
  destruct company as [raw|].
  2:{ injection H as <-. destruct Hin as [E | []]. discriminate. }
  destruct (Names.normalize_steps raw) as (w & parts & Hw & Hp & _ & E).
  rewrite E in H. destruct (Py.str_eqb raw (lit "-")).
  { injection H as <-. destruct Hin as [E' | []]. discriminate. }
  injection H as <-. unfold or_not_specified in Hin.
  destruct (normalize_parts parts []) as [|x l] eqn:N; cbn [is_empty] in Hin.
  { destruct Hin as [E' | []]. discriminate. }
  apply Title.haifa_unclassified.
  assert (Forall classified (x :: l)) as C.
  { rewrite <- N. apply Names.normalize_parts_classified; [|constructor].
    exact (Names.fragments_lowered raw w parts Hw Hp). }
  rewrite List.Forall_forall in C. now apply C.
Qed.

Lemma university_of_haifa_never_returned_witness :
  ~ In (lit "University of Haifa") [lit "University Of Haifa"; lit "Technion"].
Proof.
  apply (proj1 university_of_haifa_never_returned
           (Some (lit "University of Haifa / Technion"))).
  vm_compute. reflexivity.
Defined.

(** X9: a result has at least one name and at most as many names as
    the input has fragments. *)
Theorem result_no_longer_than_fragments (raw : str) :
  exists w fragments result,
    email_domain (Py.lower (Py.strip raw)) = Ok w
    /\ potential_parts_of w = Ok fragments
    /\ normalize_company_name (Some raw) = Ok result
    /\ 1 <= length result <= length fragments.
Proof.
  destruct (Names.normalize_steps raw) as (w & parts & Hw & Hp & Hne & E).
  exists w, parts.
  assert (1 <= length parts) as L1
    by (destruct parts; [congruence | simpl; lia]).
  destruct (Py.str_eqb raw (lit "-")).
  - exists [not_specified]. repeat split; try assumption; simpl; lia.
  - exists (or_not_specified (normalize_parts parts [])).
    repeat split; try assumption; unfold or_not_specified;
      pose proof (Loops.normalize_parts_length parts []) as [_ L];
      destruct (normalize_parts parts []); simpl in *; lia.
Qed.

(** X10: [has_affiliation] never raises on a result, and says [False]
    exactly when the result is [["Not specified"]]; for a missing value
    or ASCII text that is: for a missing value, for ["-"], and for a
    string all of whose fragments are empty once trimmed. *)
Theorem has_affiliation_of_result (company : option str) :
  exists result flag,
    normalize_company_name company = Ok result
    /\ Registration.has_affiliation result = Ok flag
    /\ (flag = false <-> result = [lit "Not specified"])
    /\ (ascii_input company = true ->
        (flag = false <->
         company = None \/ company = Some (lit "-")
         \/ exists raw w fragments,
              company = Some raw
              /\ email_domain (Py.lower (Py.strip raw)) = Ok w
              /\ potential_parts_of w = Ok fragments
              /\ Forall (fun part => Py.strip part = []) fragments)).
Proof.
  assert (Hflag : forall result : list str, result <> [] ->
    exists flag, Registration.has_affiliation result = Ok flag
                 /\ (flag = false <-> result = [not_specified])).
  { intros [|x [|y l]] Hne; [congruence | |].
    - exists (negb (Py.str_eqb x not_specified)). split; [reflexivity |].
      destruct (Py.str_eqb x not_specified) eqn:E; simpl.
      + apply str_eqb_eq in E. subst. tauto.
      + split; [discriminate |]. intros [= ->].
        rewrite (proj2 (str_eqb_eq _ _) eq_refl) in E. discriminate.
    - exists true. split; [reflexivity |]. split; discriminate. }
  assert (Hns : exists flag, Registration.has_affiliation [not_specified] = Ok flag
                 /\ (flag = false <-> [not_specified] = [not_specified])
                 /\ flag = false).
  { exists false. repeat split. }
  destruct company as [raw|].
  2:{ destruct Hns as (flag & H1 & H2 & ->).
      exists [not_specified], false.
      split; [reflexivity |]. split; [exact H1 |]. split; [exact H2 |].
      intros _. split; auto. }
  destruct (Names.normalize_steps raw) as (w & parts & Hw & Hp & Hne & E).
  rewrite E. destruct (Py.str_eqb raw (lit "-")) eqn:D.
  { apply str_eqb_eq in D. subst raw.
    destruct Hns as (flag & H1 & H2 & ->).
    exists [not_specified], false.
    split; [reflexivity |]. split; [exact H1 |]. split; [exact H2 |].
    intros _. split; auto. }
  assert (raw <> lit "-") as Hraw
    by (intros ->; vm_compute in D; discriminate).
  pose proof (Names.fragments_lowered raw w parts Hw Hp) as Hl.
  assert (Forall classified (normalize_parts parts [])) as C
    by (apply Names.normalize_parts_classified; [exact Hl | constructor]).
  destruct (Hflag (or_not_specified (normalize_parts parts [])))
    as (flag & Hf & Hiff).
  { unfold or_not_specified. destruct (normalize_parts parts []); discriminate. }
  exists (or_not_specified (normalize_parts parts [])), flag.
  split; [reflexivity |]. split; [exact Hf |]. split; [exact Hiff |].
  intros _. rewrite Hiff. unfold or_not_specified.
  destruct (normalize_parts parts []) as [|x l] eqn:N; cbn [is_empty].
  - split; [intros _ | reflexivity]. right. right.
    exists raw, w, parts. repeat split; try assumption.
    now apply Loops.normalize_parts_nil.
  - split.
    + intros [= -> ->]. exfalso. apply Title.not_specified_unclassified.
      now inversion C.
    + intros [H | [H | (raw' & w' & parts' & H & Hw' & Hp' & Hall)]];
        [discriminate | congruence |].
      injection H as <-. rewrite Hw in Hw'. injection Hw' as <-.
      rewrite Hp in Hp'. injection Hp' as <-.
      apply Loops.normalize_parts_nil in Hall. congruence.
Qed.

Lemma has_affiliation_of_result_witness :
  exists result flag,
    normalize_company_name (Some (lit " , / ")) = Ok result
    /\ Registration.has_affiliation result = Ok flag
    /\ (flag = false <-> result = [lit "Not specified"])
    /\ (flag = false <->
        Some (lit " , / ") = None \/ Some (lit " , / ") = Some (lit "-")
        \/ exists raw w fragments,
             Some (lit " , / ") = Some raw
             /\ email_domain (Py.lower (Py.strip raw)) = Ok w
             /\ potential_parts_of w = Ok fragments
             /\ Forall (fun part => Py.strip part = []) fragments).
Proof.
  destruct (has_affiliation_of_result (Some (lit " , / ")))
    as (result & flag & Hresult & Hflag & Hiff & Hascii).
  exists result, flag.
  split; [exact Hresult |]. split; [exact Hflag |]. split; [exact Hiff |].
  apply Hascii. vm_compute. reflexivity.
Defined.

(** X11: apart from the placeholder test, a call does not see letter
    case or whitespace around the input: two inputs that agree up to
    case, one of them padded with whitespace, neither being exactly
    ["-"], give the same result. *)
Theorem normalize_ignores_case_and_padding (before after a b : str) :
  all_space before -> all_space after -> Py.lower a = Py.lower b ->
  before ++ a ++ after <> lit "-" -> b <> lit "-" ->
  normalize_company_name (Some (before ++ a ++ after))
  = normalize_company_name (Some b).
Proof.
  intros Hb Ha E N1 N2. unfold normalize_company_name.
  destruct (Py.str_eqb (before ++ a ++ after) (lit "-")) eqn:D1;
    [apply str_eqb_eq in D1; congruence |].
  destruct (Py.str_eqb b (lit "-")) eqn:D2;
    [apply str_eqb_eq in D2; congruence |].
  rewrite strip_pad by assumption.
  now rewrite <- !strip_lower, E.
Qed.

Lemma normalize_ignores_case_and_padding_witness :
  normalize_company_name (Some (lit " " ++ lit "HUJI / Wix" ++ lit "  "))
  = normalize_company_name (Some (lit "huji / WIX")).
Proof.
  apply normalize_ignores_case_and_padding;
    try reflexivity; discriminate.
Defined.

(** X11, the exception: the placeholder is compared before trimming, so
    a padded ["-"] is not the placeholder; it is a fragment that occurs
    in the variation ["bar-ilan"]. *)
Example padded_placeholder :
  normalize_company_name (Some (lit " - ")) = Ok [lit "Bar Ilan University"].
Proof. vm_compute. reflexivity. Qed.

(** ** Categories of roles and of organisations *)

Module Categories.
Import Registration.

Lemma three_way {A : Type} (p q : A -> bool) (l : list A) :
  (forall x, p x && q x = false) ->
  length (List.filter p l) + length (List.filter q l)
  + length (List.filter (fun x => negb (p x || q x)) l) = length l.
Proof.
  intros D. induction l as [|x l IH]; simpl; [reflexivity |].
  specialize (D x).
  destruct (p x), (q x); simpl in *; try discriminate; lia.
Qed.

Ltac in_list H :=
  apply mem_In in H;
  repeat (destruct H as [<- | H]; [vm_compute; reflexivity |]);
  destruct H.

Lemma roles_disjoint (v : str) :
  Py.mem v academic_roles && Py.mem v industry_roles = false.
Proof.
  destruct (Py.mem v academic_roles) eqn:E; [|reflexivity].
  cbn [andb]. in_list E.
Qed.

Lemma organizations_disjoint (c : option str) :
  cell_isin universities c && cell_isin companies c = false.
Proof.
  destruct c as [v|]; [|reflexivity]. cbn [cell_isin].
  destruct (Py.mem v universities) eqn:E; [|reflexivity].
  cbn [andb]. in_list E.
Qed.

End Categories.

(** X12: the two lists of roles share no entry, so the three role
    counts split the rows: [other_count] is the number of roles in
    neither list, it is never negative, and the three counts add up to
    the number of rows. *)
Theorem role_counts_partition (roles : list str) :
  let '(academic_count, industry_count, other_count) :=
    Registration.role_counts roles in
  other_count =
    Z.of_nat (length (List.filter
      (fun r => negb (Py.mem r Registration.academic_roles
                      || Py.mem r Registration.industry_roles)) roles))
  /\ (0 <= other_count)%Z
  /\ (academic_count + industry_count + other_count
      = Z.of_nat (length roles))%Z.
Proof.
  unfold Registration.role_counts, Registration.count_isin.
  pose proof (Categories.three_way
    (fun v => Py.mem v Registration.academic_roles)
    (fun v => Py.mem v Registration.industry_roles)
    roles Categories.roles_disjoint) as H.
  cbv beta iota zeta in *. repeat split; lia.
Qed.

(** X13: the lists [universities] and [companies] share no entry, so
    the three organisation counts split the exploded rows: [other_org]
    is the number of cells in neither list (a missing cell is in
    neither), and it is never negative. *)
Theorem organization_counts_partition (exploded : list (option str)) :
  let '(university_count, company_count, other_org) :=
    Registration.organization_counts exploded in
  other_org =
    Z.of_nat (length (List.filter
      (fun c => negb (Registration.cell_isin Registration.universities c
                      || Registration.cell_isin Registration.companies c))
      exploded))
  /\ (0 <= other_org)%Z
  /\ (university_count + company_count + other_org
      = Z.of_nat (length exploded))%Z.
Proof.
  unfold Registration.organization_counts.
  pose proof (Categories.three_way
    (Registration.cell_isin Registration.universities)
    (Registration.cell_isin Registration.companies)
    exploded Categories.organizations_disjoint) as H.
  cbv beta iota zeta in *. repeat split; lia.
Qed.

(** X14: normalising a whole column never raises, and exploding the
    lists gives one cell for each name and no missing cell: every row
    of the table is counted at least once among the affiliations. *)
Theorem exploded_affiliations_complete (column : list (option str)) :
  exists lists,
    Registration.affiliation_normalized column = Ok lists
    /\ length lists = length column
    /\ Registration.explode lists = map Some (concat lists)
    /\ length column <= length (Registration.explode lists).
Proof.
  unfold Registration.affiliation_normalized.
  induction column as [|cell column (lists & E & L & X & N)]; simpl.
  - exists []. repeat split. simpl. lia.
  - destruct (normalize_returns cell) as (names & -> & Hne & _).
    rewrite bind_Ok, E, bind_Ok. exists (names :: lists).
    split; [reflexivity |]. split; [simpl; now rewrite L |].
    assert (Registration.explode (names :: lists)
            = map Some names ++ Registration.explode lists) as S.
    { unfold Registration.explode. simpl.
      destruct names; [congruence | reflexivity]. }
    split.
    + rewrite S, X. simpl. now rewrite map_app.
    + rewrite S, length_app, length_map.
      destruct names; [congruence | simpl; lia].
Qed.

(** ** [load_posters] and [main] *)

Module LoaderFacts.

Lemma bind_Done {A B : Type} (a : A) (f : A -> Loader.outcome B) :
  (Loader.Done a ≫= f) = f a.
Proof. reflexivity. Qed.

Lemma lookup_three {A : Type} (l1 l2 l3 : A) :
  three_sessions l1 l2 l3 !! 1%Z = Some l1
  /\ three_sessions l1 l2 l3 !! 2%Z = Some l2
  /\ three_sessions l1 l2 l3 !! 3%Z = Some l3
  /\ forall k, (k < 1 \/ 3 < k)%Z -> three_sessions l1 l2 l3 !! k = None.
Proof.
  unfold three_sessions. split; [|split; [|split]].
  - apply lookup_insert_eq.
  - rewrite lookup_insert_ne by lia. apply lookup_insert_eq.
  - rewrite !lookup_insert_ne by lia. apply lookup_insert_eq.
  - intros k Hk. rewrite !lookup_insert_ne by lia. apply lookup_empty.
Qed.

Lemma insert_three {A : Type} (l1 l2 l3 x : A) :
  <[1%Z := x]> (three_sessions l1 l2 l3) = three_sessions x l2 l3
  /\ <[2%Z := x]> (three_sessions l1 l2 l3) = three_sessions l1 x l3
  /\ <[3%Z := x]> (three_sessions l1 l2 l3) = three_sessions l1 l2 x.
Proof.
  unfold three_sessions. split; [|split].
  - apply insert_insert_eq.
  - rewrite (insert_insert_ne _ 2%Z 1%Z) by lia. now rewrite insert_insert_eq.
  - rewrite (insert_insert_ne _ 3%Z 1%Z) by lia.
    rewrite (insert_insert_ne _ 3%Z 2%Z) by lia. now rewrite insert_insert_eq.
Qed.

Lemma in_range (k : Z) :
  (1 <=? k)%Z && (k <=? 3)%Z = true -> k = 1%Z \/ k = 2%Z \/ k = 3%Z.
Proof. intros H. apply andb_prop in H as [H1 H2]. lia. Qed.

Lemma out_of_range (k : Z) :
  (1 <=? k)%Z && (k <=? 3)%Z = false -> (k < 1 \/ 3 < k)%Z.
Proof. intros H. apply andb_false_iff in H as [H | H]; lia. Qed.

Lemma read_row_eq int (row : gmap string (option str)) :
  read_row int row =
  field ← Loader.row_get row "Poster Session ID";
  session_id ← int field;
  if (1 <=? session_id)%Z && (session_id <=? 3)%Z
  then
    title ← Loader.row_get row "title";
    authors ← Loader.row_get row "Authors";
    mret (session_id, {| Loader.title := title; Loader.authors := authors |})
  else Loader.Fail (Loader.Exn KeyError).
Proof. reflexivity. Qed.

Lemma add_rows_read int rows : forall l1 l2 l3,
  Loader.add_rows int rows (three_sessions l1 l2 l3) =
  parsed ← map_outcome (read_row int) rows;
  mret (three_sessions (l1 ++ posters_of 1 parsed)
                       (l2 ++ posters_of 2 parsed)
                       (l3 ++ posters_of 3 parsed)).
Proof.
  induction rows as [|row rows IH]; intros l1 l2 l3;
    cbn [Loader.add_rows map_outcome].
  - rewrite bind_Done. unfold posters_of. simpl. now rewrite !app_nil_r.
  - rewrite (read_row_eq int row).
    destruct (Loader.row_get row "Poster Session ID") as [field|e];
      [rewrite !bind_Done | reflexivity].
    destruct (int field) as [k|e]; [rewrite !bind_Done | reflexivity].
    destruct (lookup_three l1 l2 l3) as (H1 & H2 & H3 & Hout).
    destruct ((1 <=? k)%Z && (k <=? 3)%Z) eqn:R.
    2:{ apply out_of_range in R. unfold Posters.getitem.
        now rewrite (Hout k R). }
    assert (exists posters,
      Posters.getitem (three_sessions l1 l2 l3) k = Ok posters
      /\ forall p,
           Loader.add_rows int rows
             (<[k := posters ++ [p]]> (three_sessions l1 l2 l3)) =
           parsed ← map_outcome (read_row int) rows;
           mret (three_sessions (l1 ++ posters_of 1 ((k, p) :: parsed))
                                (l2 ++ posters_of 2 ((k, p) :: parsed))
                                (l3 ++ posters_of 3 ((k, p) :: parsed))))
      as (posters & -> & Hstep).
    { unfold Posters.getitem.
      apply in_range in R as [-> | [-> | ->]];
        [exists l1; rewrite H1 | exists l2; rewrite H2 | exists l3; rewrite H3];
        (split; [reflexivity |]); intros p;
        [rewrite (proj1 (insert_three l1 l2 l3 _))
        |rewrite (proj1 (proj2 (insert_three l1 l2 l3 _)))
        |rewrite (proj2 (proj2 (insert_three l1 l2 l3 _)))];
        rewrite IH;
        (destruct (map_outcome (read_row int) rows) as [parsed|e];
           [rewrite !bind_Done | reflexivity]);
        unfold posters_of; simpl; now rewrite <- !app_assoc. }
    cbn [Loader.lift]. rewrite bind_Done.
    destruct (Loader.row_get row "title") as [title|e];
      [rewrite !bind_Done | reflexivity].
    destruct (Loader.row_get row "Authors") as [authors|e];
      [rewrite !bind_Done | reflexivity].
    rewrite Hstep.
    destruct (map_outcome (read_row int) rows) as [parsed|e]; reflexivity.
Qed.

Lemma read_row_range int row k p :
  read_row int row = Loader.Done (k, p) -> k = 1%Z \/ k = 2%Z \/ k = 3%Z.
Proof.
  rewrite read_row_eq.
  destruct (Loader.row_get row "Poster Session ID") as [field|e];
    [rewrite bind_Done | discriminate].
  destruct (int field) as [k'|e]; [rewrite bind_Done | discriminate].
  destruct ((1 <=? k')%Z && (k' <=? 3)%Z) eqn:R; [|discriminate].
  destruct (Loader.row_get row "title"); [rewrite bind_Done | discriminate].
  destruct (Loader.row_get row "Authors"); [rewrite bind_Done | discriminate].
  intros [= <- _]. now apply in_range.
Qed.

Lemma map_outcome_parsed int rows : forall parsed,
  map_outcome (read_row int) rows = Loader.Done parsed ->
  length parsed = length rows
  /\ length (posters_of 1 parsed) + length (posters_of 2 parsed)
     + length (posters_of 3 parsed) = length rows.
Proof.
  induction rows as [|row rows IH]; intros parsed; cbn [map_outcome].
  - intros [= <-]. split; reflexivity.
  - destruct (read_row int row) as [[k p]|e] eqn:E;
      [rewrite bind_Done | discriminate].
    destruct (map_outcome (read_row int) rows) as [rest|e];
      [rewrite bind_Done | discriminate].
    intros [= <-]. destruct (IH rest eq_refl) as [L S].
    split; [simpl; now rewrite L |].
    apply read_row_range in E. unfold posters_of in *. simpl.
    destruct E as [-> | [-> | ->]]; simpl; lia.
Qed.

Lemma sorted_three {A : Type} (l1 l2 l3 : A) :
  Posters.sorted_keys (three_sessions l1 l2 l3) = [1%Z; 2%Z; 3%Z].
Proof.
  apply (Sorted_unique Z.le).
  - apply Sorted_merge_sort. apply _.
  - repeat constructor; lia.
  - unfold Posters.sorted_keys. rewrite merge_sort_Permutation.
    apply NoDup_Permutation.
    + apply NoDup_fst_map_to_list.
    + apply (bool_decide_unpack _). vm_compute. exact I.
    + intros k. rewrite list_elem_of_fmap, list_elem_of_In. simpl. split.
      * intros ([k' v] & -> & H). apply elem_of_map_to_list in H. simpl.
        destruct (decide (k' < 1 \/ 3 < k')%Z) as [Hk | Hk]; [|lia].
        rewrite (proj2 (proj2 (proj2 (lookup_three l1 l2 l3))) k' Hk) in H.
        discriminate.
      * destruct (lookup_three l1 l2 l3) as (H1 & H2 & H3 & _).
        intros [<- | [<- | [<- | []]]];
          [exists (1%Z, l1) | exists (2%Z, l2) | exists (3%Z, l3)];
          (split; [reflexivity | now apply elem_of_map_to_list]).
Qed.

End LoaderFacts.

(** X15: [load_posters] reads the rows in order and stops at the first
    exception: a column that the header does not have ([KeyError]),
    whatever [int] raises on the session field ([ValueError] for text
    that is no integer, [TypeError] for the [None] of a short line), a
    session other than 1, 2, 3 ([KeyError]).  When no row raises, the
    dict has exactly the three sessions, and each holds the posters of
    its rows in the order of the file, with [None] where a line was
    too short for the title or the authors. *)
Theorem load_posters_by_session (int : option str -> Loader.outcome Z)
    (rows : list (gmap string (option str))) :
  Loader.load_posters int rows =
  parsed ← map_outcome (read_row int) rows;
  mret (<[1%Z := posters_of 1 parsed]>
          (<[2%Z := posters_of 2 parsed]>
             (<[3%Z := posters_of 3 parsed]> ∅))).
Proof.
  unfold Loader.load_posters.
  change Loader.empty_sessions
    with (three_sessions (@nil Loader.loaded) [] []).
  apply LoaderFacts.add_rows_read.
Qed.

(** X16: when [load_posters] returns, every row has become one poster:
    the sessions 1, 2 and 3 are there, no other is, and their lists
    together are as long as the file. *)
Theorem load_posters_counts (int : option str -> Loader.outcome Z)
    (rows : list (gmap string (option str)))
    (posters_by_session : gmap Z (list Loader.loaded)) :
  Loader.load_posters int rows = Loader.Done posters_by_session ->
  exists l1 l2 l3,
    posters_by_session !! 1%Z = Some l1
    /\ posters_by_session !! 2%Z = Some l2
    /\ posters_by_session !! 3%Z = Some l3
    /\ (forall k, (k < 1 \/ 3 < k)%Z -> posters_by_session !! k = None)
    /\ length l1 + length l2 + length l3 = length rows.
Proof.
  unfold Loader.load_posters.
  change Loader.empty_sessions
    with (three_sessions (@nil Loader.loaded) [] []).
  rewrite LoaderFacts.add_rows_read.
  destruct (map_outcome (read_row int) rows) as [parsed|e] eqn:E;
    [|discriminate].
  rewrite LoaderFacts.bind_Done. intros [= <-]. simpl.
  destruct (LoaderFacts.lookup_three (posters_of 1 parsed)
              (posters_of 2 parsed) (posters_of 3 parsed))
    as (H1 & H2 & H3 & Hout).
  exists (posters_of 1 parsed), (posters_of 2 parsed), (posters_of 3 parsed).
  repeat split; try assumption.
  now apply (LoaderFacts.map_outcome_parsed int).
Qed.

Lemma load_posters_counts_witness :
  exists l1 l2 l3,
    demo_sessions !! 1%Z = Some l1
    /\ demo_sessions !! 2%Z = Some l2
    /\ demo_sessions !! 3%Z = Some l3
    /\ (forall k, (k < 1 \/ 3 < k)%Z -> demo_sessions !! k = None)
    /\ length l1 + length l2 + length l3 = length demo_rows.
Proof.
  apply (load_posters_counts Loader.ascii_int demo_rows demo_sessions).
  vm_compute. reflexivity.
Defined.

Module MainFacts.

Lemma add_posters_unwrap (posters : list Loader.loaded) : forall html,
  Loader.add_posters posters html =
  match unwrap_all posters with
  | Some ps => Loader.Done (html ++ flat_map poster_text ps)
  | None => Loader.Fail Loader.AttributeError
  end.
Proof.
  induction posters as [|p posters IH]; intros html;
    cbn [Loader.add_posters unwrap_all].
  - now rewrite app_nil_r.
  - destruct p as [[title|] [authors|]]; unfold unwrap;
      cbn [Loader.title Loader.authors Loader.escape_field];
      try reflexivity.
    rewrite !LoaderFacts.bind_Done, IH.
    destruct (unwrap_all posters) as [ps|]; [|reflexivity].
    cbn [flat_map]. unfold poster_text at 2.
    cbn [Posters.title Posters.authors].
    rewrite !PostersFacts.escape_entities, <- app_assoc. reflexivity.
Qed.

Lemma session_three (a b c : list Posters.poster) (k : Z) (time : str)
    (posters : list Posters.poster) :
  Posters.session_times !! k = Some time ->
  three_sessions a b c !! k = Some posters ->
  session_text (three_sessions a b c) k =
  Posters.session_open k time ++ flat_map poster_text posters
    ++ Posters.session_close.
Proof.
  intros Ht Hp. unfold session_text, str in *. now rewrite Ht, Hp.
Qed.

Lemma generate_html_three (page_head page_tail : str)
    (l1 l2 l3 : list Loader.loaded) :
  Loader.generate_html page_head page_tail (three_sessions l1 l2 l3) =
  match unwrap_all l1, unwrap_all l2, unwrap_all l3 with
  | Some a, Some b, Some c =>
      Loader.Done (page_head
                     ++ session_text (three_sessions a b c) 1
                     ++ session_text (three_sessions a b c) 2
                     ++ session_text (three_sessions a b c) 3
                     ++ page_tail)
  | _, _, _ => Loader.Fail Loader.AttributeError
  end.
Proof.
  assert (T1 : is_Some (Posters.session_times !! 1%Z)) by (vm_compute; eauto).
  assert (T2 : is_Some (Posters.session_times !! 2%Z)) by (vm_compute; eauto).
  assert (T3 : is_Some (Posters.session_times !! 3%Z)) by (vm_compute; eauto).
  destruct T1 as [t1 T1], T2 as [t2 T2], T3 as [t3 T3].
  destruct (LoaderFacts.lookup_three l1 l2 l3) as (H1 & H2 & H3 & _).
  unfold Loader.generate_html. rewrite LoaderFacts.sorted_three.
  cbn [Loader.add_sessions]. unfold Posters.getitem, str in *.
  rewrite H1, H2, H3, T1, T2, T3. cbn [Loader.lift].
  rewrite !LoaderFacts.bind_Done, add_posters_unwrap.
  destruct (unwrap_all l1) as [a|]; [|reflexivity].
  rewrite !LoaderFacts.bind_Done, add_posters_unwrap.
  destruct (unwrap_all l2) as [b|]; [|reflexivity].
  rewrite !LoaderFacts.bind_Done, add_posters_unwrap.
  destruct (unwrap_all l3) as [c|]; [|reflexivity].
  rewrite !LoaderFacts.bind_Done.
  destruct (LoaderFacts.lookup_three a b c) as (A1 & A2 & A3 & _).
  rewrite (session_three a b c 1 t1 a T1 A1),
          (session_three a b c 2 t2 b T2 A2),
          (session_three a b c 3 t3 c T3 A3).
  unfold mret, Loader.outcome_ret. f_equal.
  generalize (Posters.session_open 1 t1), (Posters.session_open 2 t2),
             (Posters.session_open 3 t3), Posters.session_close,
             (flat_map poster_text a), (flat_map poster_text b),
             (flat_map poster_text c).
  intros. now rewrite <- !app_assoc.
Qed.

End MainFacts.

(** X17: [main] raises what [load_posters] raises; when the rows load
    and a poster has [None] for its title or its authors (a line of the
    file that is too short), [generate_html] raises [AttributeError];
    otherwise the text written is the head, the columns of sessions 1,
    2 and 3 in this order (also for sessions without posters), each
    with the posters of its rows in the order of the file, and the
    tail. *)
Theorem main_page_of_rows (int : option str -> Loader.outcome Z)
    (page_head page_tail : str) (rows : list (gmap string (option str))) :
  Loader.main int page_head page_tail rows =
  parsed ← map_outcome (read_row int) rows;
  match unwrap_all (posters_of 1 parsed),
        unwrap_all (posters_of 2 parsed),
        unwrap_all (posters_of 3 parsed) with
  | Some a, Some b, Some c =>
      Loader.Done (page_head
                     ++ session_text (three_sessions a b c) 1
                     ++ session_text (three_sessions a b c) 2
                     ++ session_text (three_sessions a b c) 3
                     ++ page_tail)
  | _, _, _ => Loader.Fail Loader.AttributeError
  end.
Proof.
  unfold Loader.main, Loader.load_posters.
  change Loader.empty_sessions
    with (three_sessions (@nil Loader.loaded) [] []).
  rewrite LoaderFacts.add_rows_read.
  destruct (map_outcome (read_row int) rows) as [parsed|e]; [|reflexivity].
  rewrite !LoaderFacts.bind_Done. unfold mret, Loader.outcome_ret.
  rewrite !app_nil_l. apply MainFacts.generate_html_three.
Qed.



(** ** Escaping loses nothing *)

Module Entities.

Lemma entity_cases (c : ascii) :
  (c = "&"%char /\ entity c = lit "&amp;")
  \/ (c = "<"%char /\ entity c = lit "&lt;")
  \/ (c = ">"%char /\ entity c = lit "&gt;")
  \/ (entity c = [c] /\ c <> "&"%char).
Proof.
  unfold entity.
  destruct (Ascii.eqb c "&") eqn:A; [apply Ascii.eqb_eq in A; now left |].
  destruct (Ascii.eqb c "<") eqn:L; [apply Ascii.eqb_eq in L; right; now left |].
  destruct (Ascii.eqb c ">") eqn:G;
    [apply Ascii.eqb_eq in G; right; right; now left |].
  right. right. right. split; [reflexivity |].
  intros ->. discriminate.
Qed.

Lemma entities_inj (s1 : str) : forall s2,
  flat_map entity s1 = flat_map entity s2 -> s1 = s2.
Proof.
  induction s1 as [|c1 s1 IH]; intros [|c2 s2] H; simpl in H.
  - reflexivity.
  - destruct (entity_cases c2) as [[_ E]|[[_ E]|[[_ E]|[E _]]]];
      rewrite E in H; discriminate.
  - destruct (entity_cases c1) as [[_ E]|[[_ E]|[[_ E]|[E _]]]];
      rewrite E in H; discriminate.
  - destruct (entity_cases c1) as [[-> E1]|[[-> E1]|[[-> E1]|[E1 N1]]]];
    destruct (entity_cases c2) as [[-> E2]|[[-> E2]|[[-> E2]|[E2 N2]]]];
      rewrite ?E1, ?E2 in H; simpl in H;
      try discriminate;
      try (injection H as H; f_equal; now apply IH);
      try (injection H as Hc _; congruence).
    injection H as -> H. f_equal. now apply IH.
Qed.

End Entities.

(** X18: the escaping loses nothing: two strings have the same escaped
    text only if they are the same string. *)
Theorem escape_injective (s1 s2 : str) :
  Posters.escape s1 = Posters.escape s2 <-> s1 = s2.
Proof.
  split; [|now intros ->].
  rewrite !PostersFacts.escape_entities. apply Entities.entities_inj.
Qed.

Example split_demo :
  Py.split (lit " and ") (lit "a and b and c") = Ok [lit "a"; lit "b"; lit "c"].
Proof. reflexivity. Qed.

Example split_trailing : Py.split (lit ",") (lit "a,,b,") = Ok [lit "a"; []; lit "b"; []].
Proof. reflexivity. Qed.

Example title_demo : Py.title (lit "example.com") = lit "Example.Com".
Proof. reflexivity. Qed.

Example title_digit : Py.title (lit "ai21 labs 3d") = lit "Ai21 Labs 3D".
Proof. reflexivity. Qed.

Example strip_demo : Py.strip (lit "  bar ilan  ") = lit "bar ilan".
Proof. reflexivity. Qed.

Example replace_demo : Py.replace (lit "ab") (lit "x") (lit "abcabab") = lit "xcxx".
Proof. reflexivity. Qed.

Example norm_google :
  normalize_company_name (Some (lit "Google")) = Ok [lit "Google"].
Proof. vm_compute. reflexivity. Qed.

Example norm_google_research :
  normalize_company_name (Some (lit "google research")) = Ok [lit "Google"].
Proof. vm_compute. reflexivity. Qed.

Example norm_bar_ilan_google :
  normalize_company_name (Some (lit "Bar Ilan / Google"))
  = Ok [lit "Bar Ilan University"; lit "Google"].
Proof. vm_compute. reflexivity. Qed.

Example norm_email :
  normalize_company_name (Some (lit "some-unlisted-lab@example.com"))
  = Ok [lit "Example.Com"].
Proof. vm_compute. reflexivity. Qed.

Example norm_technion :
  normalize_company_name (Some (lit "Technion - Israel Institute of Technology"))
  = Ok [lit "Technion"].
Proof. vm_compute. reflexivity. Qed.

Example norm_dup :
  normalize_company_name (Some (lit "xyz, xyz")) = Ok [lit "Xyz"; lit "Xyz"].
Proof. vm_compute. reflexivity. Qed.

Example norm_ai21 :
  normalize_company_name (Some (lit "AI21")) = Ok [lit "ai2"].
Proof. vm_compute. reflexivity. Qed.

Example heap_demo :
  Heap.normalize_company_name (Some (lit "Bar Ilan / Google")) ∅
  = Ok (0, {[ 0 := [lit "Bar Ilan University"; lit "Google"] ]}).
Proof. vm_compute. reflexivity. Qed.

Example escape_demo :
  Posters.escape (lit "a<b> & c&lt;") = lit "a&lt;b&gt; &amp; c&amp;lt;".
Proof. reflexivity. Qed.

Example html_demo :
  Posters.generate_html (lit "H") (lit "T")
    (list_to_map [(2%Z, [ {| Posters.title := lit "<x>"; Posters.authors := lit "A&B" |} ])])
  = Ok (lit "H" ++ Posters.session_open 2 (lit "13:45 - 14:45")
          ++ Posters.poster_item (lit "&lt;x&gt;") (lit "A&amp;B")
          ++ Posters.session_close ++ lit "T").
Proof. vm_compute. reflexivity. Qed.

Example main_short_row :
  Loader.main Loader.ascii_int (lit "<html>") (lit "</html>") demo_rows
  = Loader.Fail Loader.AttributeError.
Proof. vm_compute. reflexivity. Qed.

Example load_short_row :
  Loader.load_posters Loader.ascii_int
    [ list_to_map [("title"%string, Some (lit "Alignment"));
                   ("Authors"%string, None);
                   ("Poster Session ID"%string, None)] ]
  = Loader.Fail Loader.TypeError.
Proof. vm_compute. reflexivity. Qed.

Example int_demo :
  Loader.ascii_int (Some (lit " -1_000 ")) = Loader.Done (-1000)%Z
  /\ Loader.ascii_int (Some ("031"%char :: lit "2"))
     = Loader.Fail (Loader.Exn ValueError)
  /\ Loader.ascii_int (Some (lit "1__0")) = Loader.Fail (Loader.Exn ValueError).
Proof. vm_compute. repeat split. Qed.
